(** * Lens: Kubernetes API client, API registry and kubeconfig sync

    A shallow embedding of the parts of the Lens desktop application that
    carry its resource-lookup and catalog-merging logic:

    - [iter]            src/common/utils/iter.ts
    - [KubeconfigSync]  the kubeconfig sync manager (class
                        [KubeconfigSyncManager])
    - [ApiManager]      the API registry (class [ApiManager])
    - [KubeJsonApi]     the error hook of the Kubernetes JSON client
    - [KubeApi]         the per-kind resource client; kube-api.ts is not
                        among the sources, so the client is modelled from
                        the written specification and run on the cases of
                        kube-api.test.ts.

    Conventions.  A JavaScript [Map] is an insertion-ordered association
    list ([ESMap]); a [Set<string>] only used through [has]/[add] is a
    [gset string]; object identity ([===] on objects) is equality of an
    explicit reference number; a callback that mutates a captured variable
    takes and returns that variable. *)

From stdpp Require Import base numbers list strings pretty gmap.


(* ===================================================================== *)
(** ** JavaScript values and truthiness *)
(* ===================================================================== *)

(** The values a callback of [iter.filter] or [iter.filterMap] can hand
    back.  Numbers are kept as integers plus [NaN]; that is all the
    truthiness test looks at. *)
Inductive value : Type :=
| VUndefined
| VNull
| VBool (b : bool)
| VNumber (n : Z)
| VNaN
| VString (s : string)
| VObject (ref : nat).

(** [if (v)] *)
Definition truthy (v : value) : bool :=
  match v with
  | VUndefined | VNull | VNaN => false
  | VBool b => b
  | VNumber n => negb (n =? 0)%Z
  | VString s => negb (String.eqb s "")
  | VObject _ => true
  end.

(** The type [Falsey = false | 0 | "" | null | undefined] of iter.ts. *)
Inductive Falsey : value -> Prop :=
| Falsey_false : Falsey (VBool false)
| Falsey_zero : Falsey (VNumber 0)
| Falsey_empty : Falsey (VString "")
| Falsey_null : Falsey VNull
| Falsey_undefined : Falsey VUndefined.

(** [if (s)] for a value known to be a string or undefined. *)
Definition truthy_str (s : option string) : bool :=
  match s with
  | None => false
  | Some s => negb (String.eqb s "")
  end.

(** [v == null]: true of [null] and [undefined] only. *)
Definition nullish (v : value) : bool :=
  match v with
  | VUndefined | VNull => true
  | _ => false
  end.

(* ===================================================================== *)
(** ** Insertion-ordered maps with string keys *)
(* ===================================================================== *)

Module ESMap.
Section ESMap.
Context {V : Type}.

Definition t := list (string * V).

Definition empty : t := [].

Fixpoint get (m : t) (k : string) : option V :=
    match m with
    | [] => None
    | (k', v) :: rest => if String.eqb k' k then Some v else get rest k
    end.

Definition has (m : t) (k : string) : bool :=
    match get m k with Some _ => true | None => false end.

  (** [m.set(k, v)]: an existing key keeps its position, a new key goes
      to the end. *)
Fixpoint set (m : t) (k : string) (v : V) : t :=
    match m with
    | [] => [(k, v)]
    | (k', v') :: rest =>
        if String.eqb k' k then (k', v) :: rest else (k', v') :: set rest k v
    end.

  (** [m.delete(k)]: the boolean tells whether an entry was removed. *)
Fixpoint delete (m : t) (k : string) : bool * t :=
    match m with
    | [] => (false, [])
    | (k', v') :: rest =>
        if String.eqb k' k then (true, rest)
        else let (found, rest') := delete rest k in (found, (k', v') :: rest')
    end.

Definition keys (m : t) : list string := List.map fst m.
Definition values (m : t) : list V := List.map snd m.
Definition entries (m : t) : list (string * V) := m.
Definition size (m : t) : nat := length m.

  (** Number of entries stored under [k]. *)
Definition count (m : t) (k : string) : nat :=
    length (List.filter (String.eqb k) (keys m)).

  (** The representation invariant of a [Map]: no key occurs twice. *)
Definition wf (m : t) : Prop := NoDup (keys m).
End ESMap.
Arguments t : clear implicits.
End ESMap.

(* ===================================================================== *)
(** ** src/common/utils/iter.ts *)
(* ===================================================================== *)

(** Generators over a finite source are lists.  Every function takes its
    callback in state-passing form, [St] being whatever the callback
    captures and mutates; a pure callback leaves it alone.  A chain of
    generators runs one element at a time through all stages; as long as
    at most one stage of a chain touches [St], running the stages one
    after the other over the whole list calls the callbacks with the same
    arguments and states. *)
Module iter.
Section Generators.
Context {St : Type}.

Definition callback (T U : Type) : Type := T -> St -> U * St.

  (** An arrow function with no effect, such as [v => v]. *)
Definition pure {T U : Type} (f : T -> U) : callback T U :=
    fun from st => (f from, st).

(** A reducer with no effect, such as [(acc, cur) => acc + cur]. *)
Definition pure2 {T R : Type} (f : R -> T -> R) : R -> callback T R :=
  fun acc cur st => (f acc cur, st).

Fixpoint map {T U : Type} (src : list T) (fn : callback T U) (st : St)
    : list U * St :=
    match src with
    | [] => ([], st)
    | from :: rest =>
        let (res, st1) := fn from st in
        let (out, st2) := map rest fn st1 in
        (res :: out, st2)
    end.

Fixpoint flatMap {T U : Type} (src : list T) (fn : callback T (list U))
    (st : St) : list U * St :=
    match src with
    | [] => ([], st)
    | from :: rest =>
        let (res, st1) := fn from st in
        let (out, st2) := flatMap rest fn st1 in
        (res ++ out, st2)
    end.

Fixpoint filter {T : Type} (src : list T) (fn : callback T value) (st : St)
    : list T * St :=
    match src with
    | [] => ([], st)
    | from :: rest =>
        let (res, st1) := fn from st in
        let (out, st2) := filter rest fn st1 in
        (if truthy res then from :: out else out, st2)
    end.

Fixpoint filterMap {T : Type} (src : list T) (fn : callback T value)
    (st : St) : list value * St :=
    match src with
    | [] => ([], st)
    | from :: rest =>
        let (res, st1) := fn from st in
        let (out, st2) := filterMap rest fn st1 in
        (if truthy res then res :: out else out, st2)
    end.

  (** [find] stops at the first match: the callback is not run on the
      elements behind it. *)
Fixpoint find {T : Type} (src : list T) (match_ : callback T value)
    (st : St) : option T * St :=
    match src with
    | [] => (None, st)
    | from :: rest =>
        let (res, st1) := match_ from st in
        if truthy res then (Some from, st1) else find rest match_ st1
    end.

(** [filterFlatMap]: a falsy element of [src] is skipped before [fn] is
    called, a falsy result of [fn] ([None]) is skipped, and of the items
    of a result the truthy ones are yielded. *)
Fixpoint filterFlatMap (src : list value)
    (fn : callback value (option (list value))) (st : St) : list value * St :=
  match src with
  | [] => ([], st)
  | from :: rest =>
      if negb (truthy from) then filterFlatMap rest fn st
      else
        let (mapping, st1) := fn from st in
        match mapping with
        | None => filterFlatMap rest fn st1
        | Some mapping =>
            let (out, st2) := filterFlatMap rest fn st1 in
            (List.filter truthy mapping ++ out, st2)
        end
  end.

Fixpoint filterMapStrict {T : Type} (src : list T) (fn : callback T value)
    (st : St) : list value * St :=
  match src with
  | [] => ([], st)
  | from :: rest =>
      let (res, st1) := fn from st in
      let (out, st2) := filterMapStrict rest fn st1 in
      (if negb (nullish res) then res :: out else out, st2)
  end.

Fixpoint reduce {T R : Type} (src : list T) (reducer : R -> callback T R)
    (initial : R) (st : St) : R * St :=
  match src with
  | [] => (initial, st)
  | item :: rest =>
      let (acc, st1) := reducer initial item st in
      reduce rest reducer acc st1
  end.

(** [every] stops at the first element [fn] rejects. *)
Fixpoint every {T : Type} (src : list T) (fn : callback T value) (st : St)
  : bool * St :=
  match src with
  | [] => (true, st)
  | val :: rest =>
      let (res, st1) := fn val st in
      if negb (truthy res) then (false, st1) else every rest fn st1
  end.

  (** [pipeline(src).collect(fn)] *)
Definition collect {T U : Type} (src : list T) (fn : list T -> U) : U :=
    fn src.
End Generators.

(** [join(src, connector = ",")] on strings, which the template literal
    leaves as they are. *)
Definition join (src : list string) (connector : option string) : string :=
  let connector := default "," connector in
  match src with
  | [] => ""
  | first :: iterSrc =>
      fst (reduce iterSrc (pure2 (fun acc cur => acc +:+ connector +:+ cur)) first tt)
  end.

(** The [while (n --> 0) iterator.next()] of [nth]: [steps] calls of
    [next()], each dropping an item if one is left. *)
Fixpoint advance {T : Type} (steps : nat) (iterator : list T) : list T :=
  match steps with
  | 0 => iterator
  | S steps' => advance steps' (tail iterator)
  end.

(** [nth(src, n)] for an integer [n]; [None] is [undefined]. *)
Definition nth {T : Type} (src : list T) (n : Z) : option T :=
  head (advance (Z.to_nat n) src).

Definition first {T : Type} (src : list T) : option T := nth src 0.
End iter.

(* ===================================================================== *)
(** ** The kubeconfig sync manager (class [KubeconfigSyncManager]) *)
(* ===================================================================== *)

Module KubeconfigSync.

(** A catalog entity; [getId()] returns the uid of its metadata. *)
Record CatalogEntity : Type := {
  uid : string;
  name : string;
  origin : string
}.

Definition getId (e : CatalogEntity) : string := uid e.

Definition Disposer : Type := nat.

(** [[IComputedValue<CatalogEntity[]>, Disposer]]: the computed value is
    held by what [entities.get()] returns at the moment. *)
Definition Source : Type := (list CatalogEntity * Disposer)%type.

Inductive LogLevel : Type := LInfo | LDebug.

Inductive LogMeta : Type :=
| NoMeta
| MetaFilePath (filePath : string)
| MetaFiles (files : list string).

Record LogEntry : Type := {
  level : LogLevel;
  message : string;
  meta : LogMeta
}.

(** [KubeconfigSyncManagerDependencies].  [kubeconfigSyncs] is read only
    for its keys. *)
Record Dependencies : Type := {
  directoryForKubeConfigs : string;
  kubeconfigSyncs : list string;
  watchKubeconfigFileChanges : string -> Source
}.

(** The manager together with what its dependencies have been asked to
    do: [logged] is every call to the logger, oldest first, and
    [watchesStarted] every path handed to [watchKubeconfigFileChanges]. *)
Record State : Type := {
  sources : ESMap.t Source;
  syncListDisposer : option Disposer;
  logged : list LogEntry;
  watchesStarted : list string
}.

Definition initial : State :=
  {| sources := ESMap.empty; syncListDisposer := None;
     logged := []; watchesStarted := [] |}.

Definition logger_info (msg : string) (m : LogMeta) (st : State) : State :=
  {| sources := sources st; syncListDisposer := syncListDisposer st;
     logged := logged st ++ [{| level := LInfo; message := msg; meta := m |}];
     watchesStarted := watchesStarted st |}.

Definition logger_debug (msg : string) (m : LogMeta) (st : State) : State :=
  {| sources := sources st; syncListDisposer := syncListDisposer st;
     logged := logged st ++ [{| level := LDebug; message := msg; meta := m |}];
     watchesStarted := watchesStarted st |}.

Definition already_syncing (filePath : string) : LogEntry :=
  {| level := LDebug; message := "already syncing file/folder";
     meta := MetaFilePath filePath |}.

Definition files_watched (st : State) : string :=
  pretty (ESMap.size (sources st)) +:+ " files/folders watched".

(** The id under which the [Set] object [seenIds] lives; [seenIds.add]
    returns the set itself, an object. *)
Definition seenIds_ref : nat := 0.

(** The callback of [.filter] in [source]. *)
Definition unseen : @iter.callback (gset string) CatalogEntity value :=
  fun entity seenIds =>
    if decide (getId entity ∈ seenIds)
    then (VBool false, seenIds)
    else (VObject seenIds_ref, {[ getId entity ]} ∪ seenIds).

(** [source = computed(() => ...)]: what reading it returns. *)
Definition source (st : State) : list CatalogEntity :=
  let seenIds : gset string := ∅ in
  let (flat, seenIds) :=
    iter.flatMap (ESMap.values (sources st))
                 (iter.pure (fun src : Source => fst src)) seenIds in
  let (kept, seenIds) := iter.filter flat unseen seenIds in
  iter.collect kept (fun items => items).

Definition startNewSync (deps : Dependencies) (filePath : string) (st : State)
  : State :=
  if ESMap.has (sources st) filePath then
    logger_debug "already syncing file/folder" (MetaFilePath filePath) st
  else
    let st :=
      {| sources := ESMap.set (sources st) filePath
                      (watchKubeconfigFileChanges deps filePath);
         syncListDisposer := syncListDisposer st;
         logged := logged st;
         watchesStarted := watchesStarted st ++ [filePath] |} in
    let st := logger_info "starting sync of file/folder" (MetaFilePath filePath) st in
    logger_debug (files_watched st) (MetaFiles (ESMap.keys (sources st))) st.

Definition stopOldSync (filePath : string) (st : State) : State :=
  let (deleted, rest) := ESMap.delete (sources st) filePath in
  if negb deleted then
    logger_debug "no syncing file/folder to stop" (MetaFilePath filePath) st
  else
    let st :=
      {| sources := rest; syncListDisposer := syncListDisposer st;
         logged := logged st; watchesStarted := watchesStarted st |} in
    let st := logger_info "stopping sync of file/folder" (MetaFilePath filePath) st in
    logger_debug (files_watched st) (MetaFiles (ESMap.keys (sources st))) st.

(** A change of the configured sync set, as [observe] reports it. *)
Inductive Change : Type :=
| ChangeAdd (name : string)
| ChangeDelete (name : string)
| ChangeUpdate (name : string).

Definition onChange (deps : Dependencies) (change : Change) (st : State) : State :=
  match change with
  | ChangeAdd name => startNewSync deps name st
  | ChangeDelete name => stopOldSync name st
  | ChangeUpdate _ => st
  end.

(** The disposer [observe] hands back. *)
Definition observeDisposer : Disposer := 1.

Definition startSync (deps : Dependencies) (st : State) : State :=
  let st := logger_info "starting requested syncs" NoMeta st in
  let st := startNewSync deps (directoryForKubeConfigs deps) st in
  let st := fold_left (fun st filePath => startNewSync deps filePath st)
                      (kubeconfigSyncs deps) st in
  {| sources := sources st; syncListDisposer := Some observeDisposer;
     logged := logged st; watchesStarted := watchesStarted st |}.

Definition stopSync (st : State) : State :=
  let st := logger_info "stopping requested syncs" NoMeta st in
  fold_left (fun st filePath => stopOldSync filePath st)
            (ESMap.keys (sources st)) st.

(** The states the manager can be in: it starts empty, and changes by
    its public methods and by the changes of the configured sync set it
    observes. *)
Inductive Reachable (deps : Dependencies) : State -> Prop :=
| Reachable_initial : Reachable deps initial
| Reachable_startSync st :
    Reachable deps st -> Reachable deps (startSync deps st)
| Reachable_stopSync st :
    Reachable deps st -> Reachable deps (stopSync st)
| Reachable_onChange st change :
    Reachable deps st -> Reachable deps (onChange deps change st).

(** The sources the map holds are those the file watcher gave for their
    paths, each path was handed to the watcher, and no path is there
    twice. *)
Definition started_by_watcher (deps : Dependencies) (st : State) : Prop :=
  ESMap.wf (sources st)
  /\ forall p s, ESMap.get (sources st) p = Some s ->
                 s = watchKubeconfigFileChanges deps p /\ p ∈ watchesStarted st.

(** *** The merged view in the words of its description

    Position [i] of a list is a later duplicate when a position before it
    holds an entity with the same id. *)
Definition later_duplicate (l : list CatalogEntity) (i : nat) (e : CatalogEntity)
  : bool :=
  existsb (fun earlier => String.eqb (getId earlier) (getId e)) (take i l).

(** The list with every later duplicate removed, order kept. *)
Definition without_later_duplicates (l : list CatalogEntity) : list CatalogEntity :=
  flat_map (fun i => match l !! i with
                     | Some e => if later_duplicate l i e then [] else [e]
                     | None => []
                     end)
           (seq 0 (length l)).

(** All sources' entity lists, one after the other in insertion order. *)
Definition all_entities (st : State) : list CatalogEntity :=
  concat (List.map fst (ESMap.values (sources st))).

End KubeconfigSync.

(* ===================================================================== *)
(** ** JavaScript string methods *)
(* ===================================================================== *)

(** A string is held as the bytes of its UTF-8 encoding.  The methods
    defined here compare and cut strings and give the same on the bytes
    as on the characters.  [toLowerCase] is not among them: it follows the case
    tables of Unicode, and the code that calls it takes it as a
    parameter. *)

(** [s.endsWith(suffix)] *)
Definition endsWith (s suffix : string) : bool :=
  (String.length suffix <=? String.length s)%nat
  && String.eqb
       (String.substring (String.length s - String.length suffix)
                         (String.length suffix) s)
       suffix.

(* ===================================================================== *)
(** ** The API registry (class [ApiManager]) *)
(* ===================================================================== *)

Module ApiManager.

(** What the registry reads of a [KubeApi]; [ref] is the identity of the
    object. *)
Record KubeApi : Type := {
  ref : nat;
  apiBase : string;
  kind : string;
  apiVersionWithGroup : string
}.

Record KubeObjectStore : Type := {
  store_ref : nat;
  api : KubeApi
}.

(** [a === b] on two clients *)
Definition same_api (a b : KubeApi) : bool := Nat.eqb (ref a) (ref b).

Record KubeObject : Type := {
  getNs : option string
}.

Record ObjectReference : Type := {
  ref_kind : option string;
  ref_apiVersion : option string;
  ref_name : string;
  ref_namespace : option string
}.

(** The argument of [createKubeApiURL]. *)
Record IKubeApiLinkRef : Type := {
  link_apiPrefix : option string;
  link_apiVersion : string;
  link_name : string;
  link_namespace : option string;
  link_resource : string
}.

(** The functions [lookupApiLink] and [getApi] import from files that are
    not among the sources: [parseKubeApi(path).apiBase] and
    [createKubeApiURL] of kube-api-parse.ts, and the method
    [KubeApi.getUrl].  They are parameters of the registry, and so is the
    method [String.prototype.toLowerCase] of the language, which lowers
    every letter Unicode knows a lower case of. *)
Record Imports : Type := {
  parseKubeApi_apiBase : string -> string;
  createKubeApiURL : IKubeApiLinkRef -> string;
  getUrl : KubeApi -> option string -> string -> string;
  toLowerCase : string -> string
}.

Record State : Type := {
  apis : ESMap.t KubeApi;
  stores : ESMap.t KubeObjectStore
}.

Definition empty : State := {| apis := ESMap.empty; stores := ESMap.empty |}.

(** [m.forEach(callback)] where the callback may write to [m] itself: the
    walk goes over the live entries, position by position, reads each
    value when it gets there, and also reaches entries appended on the
    way.  [fuel] bounds the number of entries visited. *)
Fixpoint forEach_from {V : Type} (fuel i : nat)
    (callback : V -> string -> ESMap.t V -> ESMap.t V) (m : ESMap.t V)
  : ESMap.t V :=
  match fuel with
  | 0 => m
  | S fuel' =>
      match m !! i with
      | None => m
      | Some (key, v) => forEach_from fuel' (S i) callback (callback v key m)
      end
  end.

(** The callback of [this.stores.forEach] in [registerApi]. *)
Definition rebind_store (a : KubeApi)
  : KubeObjectStore -> string -> ESMap.t KubeObjectStore -> ESMap.t KubeObjectStore :=
  fun store _ stores =>
    if same_api (api store) a then ESMap.set stores (apiBase a) store else stores.

(** Room left in a store map before the walk of [registerApi] must end:
    its entries, and one more while the key of the client is missing. *)
Definition rebind_room (a : KubeApi) (m : ESMap.t KubeObjectStore) : nat :=
  length m + (if ESMap.has m (apiBase a) then 0 else 1).

(** [registerApi(apiBaseRaw, apiRaw?)]: both overloads.  The walk over
    the stores can append one entry at most, so two more steps than there
    are stores cover it ([rebind_fuel_enough] below). *)
Definition registerApi (apiBaseRaw : string + KubeApi) (apiRaw : option KubeApi)
    (m : State) : State :=
  let api := match apiBaseRaw with
             | inl _ => apiRaw
             | inr a => Some a
             end in
  match api with
  | None => m
  | Some a =>
      if negb (truthy (VString (apiBase a))) then m
      else if negb (ESMap.has (apis m) (apiBase a)) then
        {| stores := forEach_from (2 + ESMap.size (stores m)) 0
                                  (rebind_store a) (stores m);
           apis := ESMap.set (apis m) (apiBase a) a |}
      else m
  end.

(** [getApi(pathOrCallback)].  The logging line is left out; it calls
    [parseKubeApi] on the path whether or not the path is registered,
    which, [parseKubeApi] being a function here, changes nothing of what
    is returned. *)
Definition getApi (imports : Imports) (pathOrCallback : string + (KubeApi -> value))
    (m : State) : option KubeApi :=
  match pathOrCallback with
  | inl path =>
      match ESMap.get (apis m) path with
      | Some a => Some a
      | None => ESMap.get (apis m) (parseKubeApi_apiBase imports path)
      end
  | inr callback =>
      fst (iter.find (ESMap.values (apis m)) (iter.pure callback) tt)
  end.

Definition getApiByKind (kind_ apiVersion : string) (m : State) : option KubeApi :=
  fst (iter.find (ESMap.values (apis m))
         (iter.pure (fun a => VBool (String.eqb (kind a) kind_
                                     && String.eqb (apiVersionWithGroup a) apiVersion)))
         tt).

Definition resolveApi (imports : Imports) (a : option (string + KubeApi))
    (m : State) : option KubeApi :=
  match a with
  | None => None
  | Some (inl path) =>
      if negb (truthy (VString path)) then None else getApi imports (inl path) m
  | Some (inr a) => Some a
  end.

Fixpoint unregister_entry (entries : list (string * KubeApi)) (a : KubeApi)
  : option string :=
  match entries with
  | [] => None
  | (key, a') :: rest => if same_api a' a then Some key else unregister_entry rest a
  end.

Definition unregisterApi (a : string + KubeApi) (m : State) : State :=
  match a with
  | inl key => {| apis := snd (ESMap.delete (apis m) key); stores := stores m |}
  | inr a =>
      match unregister_entry (ESMap.entries (apis m)) a with
      | Some key => {| apis := snd (ESMap.delete (apis m) key); stores := stores m |}
      | None => m
      end
  end.

(** [registerStore(store, apis = [store.api])]; an undefined element of
    [apis] is [None]. *)
Definition registerStore (store : KubeObjectStore)
    (apis_ : option (list (option KubeApi))) (m : State) : State :=
  let apis_ := match apis_ with Some l => l | None => [Some (api store)] end in
  fold_left
    (fun m a =>
       if truthy (VString (apiBase a))
       then {| apis := apis m; stores := ESMap.set (stores m) (apiBase a) store |}
       else m)
    (omap (fun a => a) apis_) m.

Definition getStore (imports : Imports) (a : option (string + KubeApi))
    (m : State) : option KubeObjectStore :=
  match resolveApi imports a m with
  | Some a => if truthy (VString (apiBase a)) then ESMap.get (stores m) (apiBase a) else None
  | None => None
  end.

(** What [lookupApiLink] asks of the registry and of its imports. *)
Inductive Call : Type :=
| CallGetApiCallback
| CallGetApiPath (path : string)
| CallGetUrl (a : KubeApi)
| CallCreateKubeApiURL (link : IKubeApiLinkRef).

(** The plural [lookupApiLink] guesses for a kind. *)
Definition resource_of_kind (imports : Imports) (kind_ : string) : string :=
  if endsWith kind_ "s"
  then toLowerCase imports kind_ +:+ "es"
  else toLowerCase imports kind_ +:+ "s".

Definition apiPrefixes : list string := ["/apis"; "/api"].

(** The [for (const apiPrefix of apiPrefixes)] loop of [lookupApiLink]:
    the first generated link at which a client is registered, with the
    calls made on the way. *)
Fixpoint lookup_generated (imports : Imports) (m : State)
    (mk : string -> IKubeApiLinkRef) (prefixes : list string)
  : option string * list Call :=
  match prefixes with
  | [] => (None, [])
  | apiPrefix :: rest =>
      let apiLink := createKubeApiURL imports (mk apiPrefix) in
      let calls := [CallCreateKubeApiURL (mk apiPrefix); CallGetApiPath apiLink] in
      match getApi imports (inl apiLink) m with
      | Some _ => (Some apiLink, calls)
      | None =>
          let (found, calls') := lookup_generated imports m mk rest in
          (found, calls ++ calls')
      end
  end.

(** [lookupApiLink(ref, parentObject?)]: the string it returns and, in
    order, the calls it makes. *)
Definition lookupApiLink_calls (imports : Imports) (r : ObjectReference)
    (parentObject : option KubeObject) (m : State) : string * list Call :=
  let kind_ := ref_kind r in
  let apiVersion := default "v1" (ref_apiVersion r) in
  let name := ref_name r in
  let namespace := match ref_namespace r with
                   | Some ns => Some ns
                   | None => parentObject ≫= getNs
                   end in
  if negb (truthy_str kind_) then ("", [])
  else
    let kind_ := default "" kind_ in
    match getApi imports
            (inr (fun a => VBool (String.eqb (kind a) kind_
                                  && String.eqb (apiVersionWithGroup a) apiVersion))) m with
    | Some a => (getUrl imports a namespace name, [CallGetApiCallback; CallGetUrl a])
    | None =>
        let resource := resource_of_kind imports kind_ in
        let mk apiPrefix :=
          {| link_apiPrefix := apiPrefix; link_apiVersion := apiVersion;
             link_name := name; link_namespace := namespace;
             link_resource := resource |} in
        match lookup_generated imports m (fun p => mk (Some p)) apiPrefixes with
        | (Some apiLink, calls) => (apiLink, CallGetApiCallback :: calls)
        | (None, calls) =>
            match getApi imports (inr (fun a => VBool (String.eqb (kind a) kind_))) m with
            | Some apiByKind =>
                (getUrl imports apiByKind namespace name,
                 CallGetApiCallback :: calls ++ [CallGetApiCallback; CallGetUrl apiByKind])
            | None =>
                (createKubeApiURL imports (mk None),
                 CallGetApiCallback :: calls
                   ++ [CallGetApiCallback; CallCreateKubeApiURL (mk None)])
            end
        end
    end.

Definition lookupApiLink (imports : Imports) (r : ObjectReference)
    (parentObject : option KubeObject) (m : State) : string :=
  fst (lookupApiLink_calls imports r parentObject m).

(** The body of the loop of [registerStore]. *)
Definition registerStore_step (store : KubeObjectStore) (m : State) (a : KubeApi)
  : State :=
  if truthy (VString (apiBase a))
  then {| apis := apis m; stores := ESMap.set (stores m) (apiBase a) store |}
  else m.

(** The store map holds, under the key of the client, a store of that
    client. *)
Definition bound_to (a : KubeApi) (s : ESMap.t KubeObjectStore) : Prop :=
  exists store, ESMap.get s (apiBase a) = Some store /\ same_api (api store) a = true.

End ApiManager.

(* ===================================================================== *)
(** ** The Kubernetes JSON client (class [KubeJsonApi]) *)
(* ===================================================================== *)

Module KubeJsonApi.

(** The fields [parseError] reads of a [KubeJsonApiError]; a field that is
    absent (or [undefined]) is [None]. *)
Record KubeJsonApiError : Type := {
  status : option string;
  reason : option string;
  message : option string
}.

(** [error: KubeJsonApiError | string] *)
Inductive ErrorPayload : Type :=
| ErrorText (text : string)
| ErrorObject (error : KubeJsonApiError).

Record Response : Type := {
  statusCode : nat;
  statusText : string
}.

(** [parseError(error, res)].  The formatter of the base class [JsonApi]
    lives in json-api.ts, which is not among the sources; it is the
    parameter [super_parseError]. *)
Definition parseError
    (super_parseError : ErrorPayload -> Response -> list string)
    (error : ErrorPayload) (res : Response) : list string :=
  match error with
  | ErrorText text => [text]
  | ErrorObject e =>
      if truthy_str (status e) && truthy_str (reason e) then
        [ if truthy_str (message e) then default "" (message e)
          else default "" (status e) +:+ ": " +:+ default "" (reason e) ]
      else super_parseError error res
  end.

(** *** The hook in the words of its description

    A field is present when the payload has it, whatever it holds. *)
Definition present (field : option string) : bool :=
  match field with Some _ => true | None => false end.

Definition parseError_described
    (super_parseError : ErrorPayload -> Response -> list string)
    (error : ErrorPayload) (res : Response) : option (list string) :=
  match error with
  | ErrorText text => Some [text]
  | ErrorObject e =>
      if present (status e) && present (reason e) then
        Some [ match message e with
               | Some msg => msg
               | None => default "" (status e) +:+ ": " +:+ default "" (reason e)
               end ]
      else if negb (present (status e)) && negb (present (reason e)) then
        Some (super_parseError error res)
      else None
  end.

End KubeJsonApi.

(* ===================================================================== *)
(** ** The per-kind resource client (class [KubeApi]) *)
(* ===================================================================== *)

Module KubeApi.

(** Modelled from the spec: the verbs [KubeApi] (kube-api.ts, absent from
    the sources) needs here. *)
Inductive Method : Type := GET | DELETE.

(** Modelled from the spec: a request of [KubeApi] (absent from the
    sources) as the transport sees it; [url] is the path and query the
    client composes, behind the server address and base path. *)
Record Request : Type := {
  method : Method;
  url : string
}.

(** Modelled from the spec: one api-base of [KubeApi] (absent from the
    sources), split into its parts. *)
Record ApiBase : Type := {
  apiPrefix : string;
  apiGroup : string;
  apiVersion : string
}.

(** Modelled from the spec: the construction parameters of [KubeApi]
    (kube-api.ts is not among the sources): the primary [apiBase], the
    ordered [fallbackApiBases], the flag [checkPreferredVersion], and of
    the resource descriptor the plural [resource] name and [namespaced]. *)
Record Options : Type := {
  apiBase : ApiBase;
  fallbackApiBases : list ApiBase;
  checkPreferredVersion : bool;
  resource : string;
  namespaced : bool
}.

(** Modelled from the spec: how [KubeApi] (absent from the sources)
    interpolates the parts of a path behind the api prefix, parts that are
    empty being left out; the shapes are those the tests of
    kube-api.test.ts expect. *)
Definition join_path (parts : list string) : string :=
  foldr (fun part acc => if String.eqb part "" then acc else "/" +:+ part +:+ acc)
        "" parts.

(** Modelled from the spec: the resource-list endpoint of a candidate,
    [GET {apiPrefix}/{group}/{version}] (from the description of
    [KubeApi], absent from the sources). *)
Definition resource_list_request (c : ApiBase) : Request :=
  {| method := GET;
     url := apiPrefix c +:+ join_path [apiGroup c; apiVersion c] |}.

(** Modelled from the spec: the group metadata endpoint,
    [GET {apiPrefix}/{group}] (from the description of [KubeApi], absent
    from the sources). *)
Definition group_request (c : ApiBase) : Request :=
  {| method := GET; url := apiPrefix c +:+ join_path [apiGroup c] |}.

(** Modelled from the spec: what the cluster answers while [KubeApi]
    (absent from the sources) negotiates: the resource names listed at a
    url, and the preferred version a group url reports. *)
Record Cluster : Type := {
  resources_at : string -> list string;
  preferredVersion_at : string -> option string
}.

(** Modelled from the spec: the fields [KubeApi] (absent from the
    sources) sets once, on its first request. *)
Record Resolved : Type := {
  resolved_apiPrefix : string;
  resolved_apiGroup : string;
  apiVersionPreferred : string
}.

(** Modelled from the spec: the candidates of [KubeApi]'s version
    negotiation (kube-api.ts is absent), primary first, then the
    fallbacks in order. *)
Definition candidates (o : Options) : list ApiBase :=
  apiBase o :: fallbackApiBases o.

(** Modelled from the spec: the test [KubeApi] (absent from the sources)
    makes on a candidate, whether its resource list names the plural of
    the target resource. *)
Definition lists_resource (cluster : Cluster) (o : Options) (c : ApiBase) : bool :=
  existsb (String.eqb (resource o)) (resources_at cluster (url (resource_list_request c))).

(** Modelled from the spec: the candidate loop of [KubeApi]'s version
    negotiation (kube-api.ts is absent).  For each candidate the resource
    list is fetched; on the first one that lists the target resource the
    group metadata is fetched and the loop ends.  The result is the
    candidate chosen, if any, and the requests sent, in order. *)
Fixpoint negotiate (cluster : Cluster) (o : Options) (cs : list ApiBase)
  : option ApiBase * list Request :=
  match cs with
  | [] => (None, [])
  | c :: rest =>
      if lists_resource cluster o c
      then (Some c, [resource_list_request c; group_request c])
      else
        let (chosen, sent) := negotiate cluster o rest in
        (chosen, resource_list_request c :: sent)
  end.

(** Modelled from the spec: what [KubeApi] (absent) locks in once the
    negotiation is over.  A chosen candidate gives prefix and group, and
    the version its group reports as preferred; with no candidate chosen
    the last candidate's declared version is used as it is. *)
Definition resolve (cluster : Cluster) (o : Options) : Resolved * list Request :=
  let declared c :=
    {| resolved_apiPrefix := apiPrefix c; resolved_apiGroup := apiGroup c;
       apiVersionPreferred := apiVersion c |} in
  if checkPreferredVersion o then
    match negotiate cluster o (candidates o) with
    | (Some c, sent) =>
        ({| resolved_apiPrefix := apiPrefix c; resolved_apiGroup := apiGroup c;
            apiVersionPreferred :=
              default (apiVersion c)
                      (preferredVersion_at cluster (url (group_request c))) |},
         sent)
    | (None, sent) => (declared (List.last (fallbackApiBases o) (apiBase o)), sent)
    end
  else (declared (apiBase o), []).

(** Modelled from the spec: [getUrl({name?, namespace?})] of [KubeApi]
    (absent).  A cluster-scoped kind ignores the namespace; a namespaced
    kind falls back to [default] when the namespace is missing or empty. *)
Definition getUrl (o : Options) (r : Resolved)
    (name namespace : option string) : string :=
  let ns_parts :=
    if namespaced o then
      ["namespaces"; if truthy_str namespace then default "" namespace else "default"]
    else [] in
  resolved_apiPrefix r
  +:+ join_path ([resolved_apiGroup r; apiVersionPreferred r]
                 ++ ns_parts ++ [resource o; default "" name]).

(** Modelled from the spec: how a CRUD call of [KubeApi] (absent from the
    sources) ends. *)
Inductive Outcome : Type :=
| RejectedByClient
| RejectedByTransport
| ResolvedWith (body : string).

(** Modelled from the spec: [delete({name, namespace})] of [KubeApi]
    (absent).  On a cluster-scoped kind a non-empty namespace is a caller
    error, rejected before anything is sent; otherwise one [DELETE] goes
    to the resolved url, and the call ends as the transport answers.
    [transport] gives the body of a successful answer. *)
Definition delete (o : Options) (r : Resolved)
    (transport : Request -> option string)
    (name : string) (namespace : option string) : Outcome * list Request :=
  if negb (namespaced o) && truthy_str namespace then (RejectedByClient, [])
  else
    let req := {| method := DELETE;
                  url := getUrl o r (Some name) namespace
                         +:+ "?propagationPolicy=Background" |} in
    (match transport req with
     | Some body => ResolvedWith body
     | None => RejectedByTransport
     end, [req]).

(** *** Watching *)

(** Modelled from the spec: the options of [KubeApi.watch] (absent from
    the sources) that shape its request. *)
Record WatchOptions : Type := {
  watch_namespace : option string;
  watch_timeout : option nat
}.

(** Modelled from the spec: the request a watch of [KubeApi] (absent)
    opens, [{url}?watch=1&resourceVersion={last}] with
    [&timeoutSeconds={timeout}] when a timeout is given. *)
Definition watch_request (o : Options) (r : Resolved) (w : WatchOptions)
    (resourceVersion : string) : Request :=
  {| method := GET;
     url := getUrl o r None (watch_namespace w)
            +:+ "?watch=1&resourceVersion=" +:+ resourceVersion
            +:+ match watch_timeout w with
                | Some t => "&timeoutSeconds=" +:+ pretty t
                | None => ""
                end |}.

(** Modelled from the spec: a line of the stream of a watch of [KubeApi]
    (absent from the sources): a watch event, or text that does not
    parse. *)
Inductive Line : Type :=
| EventLine (type : string) (object : string)
| Malformed (text : string).

(** Modelled from the spec: what happens to a subscription of [KubeApi]
    (absent from the sources).  [Checkpoint] is the client learning a
    newer resource version. *)
Inductive Event : Type :=
| StreamLine (line : Line)
| Checkpoint (resourceVersion : string)
| StreamEnd
| StopFn
| AbortControllerFired.

(** Modelled from the spec: one subscription of [KubeApi] (absent from
    the sources): its options, the checkpoint, whether it was
    stopped, the stream in flight (the index of the request that opened
    it), every request sent, every stream aborted, and every callback
    invocation (the line handed over). *)
Record Subscription : Type := {
  options : WatchOptions;
  last_resourceVersion : string;
  stopped : bool;
  in_flight : option nat;
  sent : list Request;
  aborted : list nat;
  called_back : list Line
}.

(** Modelled from the spec: [watch(opts)] of [KubeApi] (absent) opens the
    first stream. *)
Definition watch (o : Options) (r : Resolved) (w : WatchOptions)
    (resourceVersion : string) : Subscription :=
  {| options := w; last_resourceVersion := resourceVersion; stopped := false;
     in_flight := Some 0; sent := [watch_request o r w resourceVersion];
     aborted := []; called_back := [] |}.

(** Modelled from the spec: the life of a watch of [KubeApi] (absent).
    A line goes to the callback, well-formed or not.  When the stream in
    flight ends and the subscription was not stopped, the same request is
    sent again with the checkpoint of the moment.  The stop handle and
    the caller's abort controller abort the stream in flight and mark the
    subscription stopped. *)
Definition step (o : Options) (r : Resolved) (s : Subscription) (e : Event)
  : Subscription :=
  match e with
  | StreamLine line =>
      match in_flight s with
      | Some _ =>
          {| options := options s; last_resourceVersion := last_resourceVersion s;
             stopped := stopped s; in_flight := in_flight s; sent := sent s;
             aborted := aborted s; called_back := called_back s ++ [line] |}
      | None => s
      end
  | Checkpoint rv =>
      {| options := options s; last_resourceVersion := rv;
         stopped := stopped s; in_flight := in_flight s; sent := sent s;
         aborted := aborted s; called_back := called_back s |}
  | StreamEnd =>
      match in_flight s with
      | Some _ =>
          if stopped s then
            {| options := options s; last_resourceVersion := last_resourceVersion s;
               stopped := true; in_flight := None; sent := sent s;
               aborted := aborted s; called_back := called_back s |}
          else
            {| options := options s; last_resourceVersion := last_resourceVersion s;
               stopped := false; in_flight := Some (length (sent s));
               sent := sent s ++ [watch_request o r (options s) (last_resourceVersion s)];
               aborted := aborted s; called_back := called_back s |}
      | None => s
      end
  | StopFn | AbortControllerFired =>
      {| options := options s; last_resourceVersion := last_resourceVersion s;
         stopped := true; in_flight := None; sent := sent s;
         aborted := aborted s ++ match in_flight s with
                                 | Some stream => [stream]
                                 | None => []
                                 end;
         called_back := called_back s |}
  end.

(** Modelled from the spec: a subscription of [KubeApi] (absent from the
    sources) taking events one after the other. *)
Definition run (o : Options) (r : Resolved) (s : Subscription) (es : list Event)
  : Subscription :=
  fold_left (step o r) es s.

(** Modelled from the spec: what holds of a subscription of [KubeApi]
    (absent from the sources) all its life: its options are those it
    was opened with, and it has a stream in flight exactly while it is
    not stopped. *)
Definition watch_inv (w : WatchOptions) (s : Subscription) : Prop :=
  options s = w /\ (stopped s = false <-> is_Some (in_flight s)).

End KubeApi.
(* ===================================================================== *)
(** ** The static file route of the production build *)
(* ===================================================================== *)

(** [s.startsWith(prefix)] *)
Definition startsWith (s prefix : string) : bool := String.prefix prefix s.

(** [s.slice(1)] *)
Definition slice1 (s : string) : string :=
  match s with
  | EmptyString => EmptyString
  | String _ rest => rest
  end.

Module StaticFileRoute.

(** [publicPath] of common/vars.ts *)
Definition publicPath : string := "/build/".

Definition Buffer : Type := string.

(** What the handler is given by injection, [path.extname] of Node, and
    the table [contentTypes] of router-content-types.ts, which is not
    among the sources.  A read that rejects is [None]. *)
Record Dependencies : Type := {
  readFileBuffer : string -> option Buffer;
  getAbsolutePath : string -> string;
  joinPaths : string -> string -> string;
  staticFilesDirectory : string;
  appName : string;
  extname : string -> string;
  contentTypes : string -> option string
}.

(** What the handler does to the outside: the files it reads and the
    errors it logs, in order. *)
Inductive Effect : Type :=
| ReadFile (asset : string)
| LoggerError (message : string).

(** [{ statusCode: 404 }] or [{ response, contentType }] *)
Inductive Result : Type :=
| NotFound
| Served (response : Buffer) (contentType : option string).

(** The [for] loop of the handler from the test of its condition on;
    [fuel] bounds the number of times the condition is tested. *)
Fixpoint loop (deps : Dependencies) (fuel retryCount : nat) (filePath : string)
  : Result * list Effect :=
  match fuel with
  | 0 => (NotFound, [])
  | S fuel' =>
      if negb (retryCount <? 5) then (NotFound, [])
      else
        let asset := joinPaths deps (staticFilesDirectory deps) filePath in
        let normalizedFilePath := getAbsolutePath deps asset in
        if negb (startsWith normalizedFilePath (staticFilesDirectory deps))
        then (NotFound, [])
        else
          let fileExtension := slice1 (extname deps asset) in
          let contentType :=
            if truthy_str (contentTypes deps fileExtension)
            then contentTypes deps fileExtension
            else contentTypes deps "txt" in
          match readFileBuffer deps asset with
          | Some buffer => (Served buffer contentType, [ReadFile asset])
          | None =>
              if 5 <? retryCount
              then (NotFound, [ReadFile asset; LoggerError "handleStaticFile:"])
              else
                let (result, effects) :=
                  loop deps fuel' (S retryCount)
                       (publicPath +:+ "/" +:+ appName deps +:+ ".html") in
                (result, ReadFile asset :: effects)
          end
  end.

(** The handler: the condition of the loop is tested six times at most. *)
Definition handler (deps : Dependencies) (path : string) : Result * list Effect :=
  loop deps 6 0 path.

(** The page served in place of a file that cannot be read. *)
Definition fallbackAsset (deps : Dependencies) : string :=
  joinPaths deps (staticFilesDirectory deps)
            (publicPath +:+ "/" +:+ appName deps +:+ ".html").

Definition contentTypeOf (deps : Dependencies) (asset : string) : option string :=
  if truthy_str (contentTypes deps (slice1 (extname deps asset)))
  then contentTypes deps (slice1 (extname deps asset))
  else contentTypes deps "txt".

(** An effect of the handler on a request for [filePath]: the read of a
    file inside the static files directory, the one asked for or the
    fallback page. *)
Definition safe_read (deps : Dependencies) (filePath : string) (e : Effect) : Prop :=
  exists asset,
    e = ReadFile asset
    /\ startsWith (getAbsolutePath deps asset) (staticFilesDirectory deps) = true
    /\ (asset = joinPaths deps (staticFilesDirectory deps) filePath
        \/ asset = fallbackAsset deps).

End StaticFileRoute.

(* ===================================================================== *)
(** ** The cluster overview store: which nodes the metrics are for *)
(* ===================================================================== *)

Module ClusterOverviewStore.

Inductive MetricNodeRole : Type := MASTER | WORKER.

Record Node : Type := { getName : string }.

(** What the store reads of the node store. *)
Record NodeStore : Type := {
  masterNodes : list Node;
  workerNodes : list Node
}.

(** The second reaction of [init], run when the number of nodes changes;
    the state is the role kept in the storage layer. *)
Definition onNodeCountChange (nodeStore : NodeStore) (metricNodeRole : MetricNodeRole)
  : MetricNodeRole :=
  let role := if negb (0 <? length (masterNodes nodeStore)) then WORKER
              else metricNodeRole in
  if negb (0 <? length (workerNodes nodeStore)) then MASTER else role.

(** The node names [loadMetrics] asks metrics for. *)
Definition loadMetrics_nodeNames (nodeStore : NodeStore)
    (metricNodeRole : MetricNodeRole) : list string :=
  let nodes :=
    match metricNodeRole with
    | MASTER => if 0 <? length (masterNodes nodeStore)
                then masterNodes nodeStore else workerNodes nodeStore
    | WORKER => workerNodes nodeStore
    end in
  List.map getName nodes.

End ClusterOverviewStore.

(* ===================================================================== *)
(** ** Requesting a Helm release with its details *)
(* ===================================================================== *)

Module DetailedHelmRelease.

Record HelmReleaseDto : Type := {
  name : string;
  namespace : string;
  chart : string;
  revision : nat
}.

Definition HelmReleaseDetails : Type := string.

(** [requestDetailedHelmRelease(name, namespace)].  The two requests are
    parameters, a request that rejects being [None]; the outer [option]
    of the result is [None] when the call rejects, the inner one is
    [undefined]. *)
Definition requestDetailedHelmRelease
    (requestHelmReleases : string -> option (list HelmReleaseDto))
    (requestHelmReleaseDetails : string -> string -> option HelmReleaseDetails)
    (name_ namespace_ : string)
  : option (option (HelmReleaseDto * HelmReleaseDetails)) :=
  match requestHelmReleases namespace_, requestHelmReleaseDetails name_ namespace_ with
  | Some releases, Some details =>
      let release :=
        List.find (fun rel => String.eqb (name rel) name_
                              && String.eqb (namespace rel) namespace_) releases in
      match release with
      | None => Some None
      | Some release => Some (Some (release, details))
      end
  | _, _ => None
  end.

End DetailedHelmRelease.

(* ===================================================================== *)
(** ** Data for the examples *)
(* ===================================================================== *)

Module Fixture.

(** Three clients for pods (three distinct objects) and one for nodes. *)
Definition podApi (n : nat) : ApiManager.KubeApi :=
  {| ApiManager.ref := n; ApiManager.apiBase := "/api/v1/pods";
     ApiManager.kind := "Pod"; ApiManager.apiVersionWithGroup := "v1" |}.

Definition nodeApi : ApiManager.KubeApi :=
  {| ApiManager.ref := 10; ApiManager.apiBase := "/api/v1/nodes";
     ApiManager.kind := "Node"; ApiManager.apiVersionWithGroup := "v1" |}.

(** Lowering of the letters A to Z, every other byte kept: what
    [toLowerCase] gives on the kinds of the examples, which are written
    in those letters. *)
Fixpoint lower_A_to_Z (s : string) : string :=
  match s with
  | EmptyString => EmptyString
  | String c rest =>
      let n := Ascii.nat_of_ascii c in
      String (if (65 <=? n)%nat && (n <=? 90)%nat
              then Ascii.ascii_of_nat (n + 32) else c)
             (lower_A_to_Z rest)
  end.

(** A stand-in for the imports of the registry, for running it on
    examples: links are the parts joined by slashes, a client's url is its
    [apiBase] followed by the name, a path is its own api base, and
    lowering is that of the letters A to Z. *)
Definition imports : ApiManager.Imports :=
  {| ApiManager.parseKubeApi_apiBase := fun path => path;
     ApiManager.createKubeApiURL := fun link =>
       default "/apis" (ApiManager.link_apiPrefix link)
       +:+ "/" +:+ ApiManager.link_apiVersion link
       +:+ (if truthy_str (ApiManager.link_namespace link)
            then "/namespaces/" +:+ default "" (ApiManager.link_namespace link)
            else "")
       +:+ "/" +:+ ApiManager.link_resource link
       +:+ (if String.eqb (ApiManager.link_name link) "" then ""
            else "/" +:+ ApiManager.link_name link);
     ApiManager.getUrl := fun a _ name => ApiManager.apiBase a +:+ "/" +:+ name;
     ApiManager.toLowerCase := lower_A_to_Z |}.

(** The base formatter of the JSON client, as a stand-in: the message of
    the payload if there is one, else the status text of the response. *)
Definition super_parseError (error : KubeJsonApi.ErrorPayload)
    (res : KubeJsonApi.Response) : list string :=
  match error with
  | KubeJsonApi.ErrorText text => [text]
  | KubeJsonApi.ErrorObject e =>
      if truthy_str (KubeJsonApi.message e) then [default "" (KubeJsonApi.message e)]
      else [KubeJsonApi.statusText res]
  end.

(** The clients of kube-api.test.ts. *)
Definition ingressApi : KubeApi.Options :=
  {| KubeApi.apiBase := {| KubeApi.apiPrefix := "/apis";
                           KubeApi.apiGroup := "networking.k8s.io";
                           KubeApi.apiVersion := "v1" |};
     KubeApi.fallbackApiBases := [ {| KubeApi.apiPrefix := "/apis";
                                      KubeApi.apiGroup := "extensions";
                                      KubeApi.apiVersion := "v1beta1" |} ];
     KubeApi.checkPreferredVersion := true;
     KubeApi.resource := "ingresses";
     KubeApi.namespaced := true |}.

Definition core_v1 : KubeApi.ApiBase :=
  {| KubeApi.apiPrefix := "/api"; KubeApi.apiGroup := ""; KubeApi.apiVersion := "v1" |}.

Definition namespaceApi : KubeApi.Options :=
  {| KubeApi.apiBase := core_v1; KubeApi.fallbackApiBases := [];
     KubeApi.checkPreferredVersion := false;
     KubeApi.resource := "namespaces"; KubeApi.namespaced := false |}.

Definition podKubeApi : KubeApi.Options :=
  {| KubeApi.apiBase := core_v1; KubeApi.fallbackApiBases := [];
     KubeApi.checkPreferredVersion := false;
     KubeApi.resource := "pods"; KubeApi.namespaced := true |}.

(** A cluster that serves ingresses under both groups, and one that
    serves them under the old group only. *)
Definition cluster_both : KubeApi.Cluster :=
  {| KubeApi.resources_at := fun url =>
       if String.eqb url "/apis/networking.k8s.io/v1" then ["ingresses"]
       else if String.eqb url "/apis/extensions/v1beta1" then ["ingresses"]
       else [];
     KubeApi.preferredVersion_at := fun url =>
       if String.eqb url "/apis/networking.k8s.io" then Some "v1"
       else if String.eqb url "/apis/extensions" then Some "v1beta1"
       else None |}.

Definition cluster_old : KubeApi.Cluster :=
  {| KubeApi.resources_at := fun url =>
       if String.eqb url "/apis/extensions/v1beta1" then ["ingresses"] else [];
     KubeApi.preferredVersion_at := fun url =>
       if String.eqb url "/apis/extensions" then Some "v1beta1" else None |}.

End Fixture.

(* ===================================================================== *)
(** ** Properties of the iterator utilities *)
(* ===================================================================== *)

Section IterFacts.
Context {St : Type}.

Lemma filter_pure_id (vs : list value) (st : St) :
    iter.filter vs (iter.pure (fun v => v)) st = (List.filter truthy vs, st).
  Proof.
    induction vs as [|v vs IH]; simpl; [reflexivity|].
    rewrite IH. destruct (truthy v); reflexivity.
  Qed.

Lemma filterMap_as_map {T : Type} (src : list T) (fn : iter.callback T value)
      (st : St) :
    iter.filterMap src fn st =
    (List.filter truthy (iter.map src fn st).1, (iter.map src fn st).2).
  Proof.
    revert st. induction src as [|x src IH]; intros st; simpl; [reflexivity|].
    destruct (fn x st) as [res st1]. rewrite IH.
    destruct (iter.map src fn st1) as [out st2]. simpl.
    destruct (truthy res); reflexivity.
  Qed.
End IterFacts.

(** C9. [filterMap(src, fn)] yields the truthy results of [fn] in source
    order: it is the same generator as [filter(map(src, fn), v => v)],
    also when [fn] has effects (same results, same final state); every
    value it yields is truthy, none is of type [Falsey], and a truthy
    result of [fn] is never lost. *)
Theorem filterMap_is_filter_of_map :
  forall (St T : Type) (src : list T) (fn : iter.callback T value) (st : St),
    iter.filterMap src fn st =
      (let (mapped, st1) := iter.map src fn st in
       iter.filter mapped (iter.pure (fun v => v)) st1)
    /\ (iter.filterMap src fn st).1 = List.filter truthy (iter.map src fn st).1
    /\ (forall v, In v (iter.filterMap src fn st).1 -> truthy v = true /\ ~ Falsey v).
Proof.
  intros St T src fn st.
  assert (E : iter.filterMap src fn st =
              (List.filter truthy (iter.map src fn st).1, (iter.map src fn st).2))
    by apply filterMap_as_map.
  split; [|split].
  - rewrite E. destruct (iter.map src fn st) as [mapped st1].
    rewrite filter_pure_id. reflexivity.
  - rewrite E. reflexivity.
  - intros v Hv. rewrite E in Hv. simpl in Hv.
    apply filter_In in Hv as [_ Hv]. split; [exact Hv|].
    intros F. destruct F; discriminate Hv.
Qed.

(** Each kind of falsy result is dropped, the others are kept in order. *)
Example filterMap_drops_falsy :
  (iter.filterMap
     [VBool false; VNumber 3; VNumber 0; VString ""; VNull; VString "a";
      VUndefined; VNaN; VObject 1; VBool true]
     (iter.pure (fun v => v)) tt).1
  = [VNumber 3; VString "a"; VObject 1; VBool true].
Proof. reflexivity. Qed.

(* ===================================================================== *)
(** ** Properties of the merged kubeconfig view *)
(* ===================================================================== *)

Section SourceFacts.
Import KubeconfigSync.

Lemma flatMap_pure {St T U : Type} (f : T -> list U) (src : list T) (st : St) :
  iter.flatMap src (iter.pure f) st = (concat (List.map f src), st).
Proof.
  induction src as [|x src IH]; simpl; [reflexivity|].
  rewrite IH. reflexivity.
Qed.

Lemma later_duplicate_prefix (p l : list CatalogEntity) (e : CatalogEntity) :
  later_duplicate (p ++ e :: l) (length p) e = true <-> In (getId e) (List.map getId p).
Proof.
  unfold later_duplicate. rewrite take_app_length, existsb_exists, in_map_iff.
  split.
  - intros (x & Hx & Heq). apply String.eqb_eq in Heq. eauto.
  - intros (x & Heq & Hx). exists x. split; [exact Hx|]. by apply String.eqb_eq.
Qed.

(** The walk of [filter] with the callback [unseen], started behind a
    prefix [p] whose ids are exactly the ids seen so far. *)
Lemma filter_unseen_spec (l p : list CatalogEntity) (seen : gset string) :
  (forall id, id ∈ seen <-> In id (List.map getId p)) ->
  (iter.filter l unseen seen).1 =
  flat_map (fun i => match (p ++ l) !! i with
                     | Some e => if later_duplicate (p ++ l) i e then [] else [e]
                     | None => []
                     end)
           (seq (length p) (length l)).
Proof.
  revert p seen. induction l as [|e l IH]; intros p seen Hseen; [reflexivity|].
  cbn [iter.filter length seq flat_map].
  rewrite (list_lookup_middle p l e (length p) eq_refl).
  assert (Hnext : (p ++ [e]) ++ l = p ++ e :: l) by (by rewrite <- app_assoc).
  assert (Hlen : length (p ++ [e]) = S (length p)) by (rewrite length_app; simpl; lia).
  unfold unseen at 1. destruct (decide (getId e ∈ seen)) as [Hin|Hout].
  - assert (Hdup : later_duplicate (p ++ e :: l) (length p) e = true)
      by (apply later_duplicate_prefix, Hseen, Hin).
    rewrite Hdup. simpl.
    specialize (IH (p ++ [e]) seen). rewrite Hnext, Hlen in IH.
    destruct (iter.filter l unseen seen) as [out st2]. simpl in *.
    apply IH. intros id. rewrite map_app, in_app_iff, Hseen. simpl.
    split; [tauto|]. intros [H|[<-|[]]]; [exact H|]. by apply Hseen.
  - assert (Hdup : later_duplicate (p ++ e :: l) (length p) e = false).
    { apply not_true_is_false. intros H. apply Hout, Hseen.
      by apply later_duplicate_prefix in H. }
    rewrite Hdup. simpl.
    specialize (IH (p ++ [e]) ({[getId e]} ∪ seen)). rewrite Hnext, Hlen in IH.
    destruct (iter.filter l unseen ({[getId e]} ∪ seen)) as [out st2]. simpl in *.
    f_equal. apply IH. intros id.
    rewrite map_app, in_app_iff, elem_of_union, elem_of_singleton, Hseen. simpl.
    split; [intros [->|H]; tauto|]. intros [H|[<-|[]]]; tauto.
Qed.

(** What [filter] with [unseen] lets through carries pairwise distinct
    ids, none of them seen before. *)
Lemma filter_unseen_NoDup (l : list CatalogEntity) (seen : gset string) :
  NoDup (List.map getId (iter.filter l unseen seen).1)
  /\ (forall e, In e (iter.filter l unseen seen).1 -> getId e ∉ seen)
  /\ seen ⊆ (iter.filter l unseen seen).2.
Proof.
  revert seen. induction l as [|e l IH]; intros seen.
  - simpl. split; [constructor|]. split; [intros ? []|set_solver].
  - cbn [iter.filter]. unfold unseen at 1 3 5.
    destruct (decide (getId e ∈ seen)) as [Hin|Hout].
    + specialize (IH seen).
      destruct (iter.filter l unseen seen) as [out st2]. simpl in *. exact IH.
    + specialize (IH ({[getId e]} ∪ seen)).
      destruct (iter.filter l unseen ({[getId e]} ∪ seen)) as [out st2].
      simpl in *. destruct IH as (Hnd & Hfresh & Hsub).
      split; [|split].
      * constructor; [|exact Hnd]. rewrite list_elem_of_In, in_map_iff.
        intros (x & Heq & Hx). apply (Hfresh x Hx). rewrite Heq. set_solver.
      * intros x [<-|Hx]; [exact Hout|]. specialize (Hfresh x Hx). set_solver.
      * set_solver.
Qed.
End SourceFacts.

(** C1. Reading [source] gives the entity lists of all sources, in the
    order the sources were inserted, with every entity removed whose id is
    the id of an earlier one: per id the first occurrence stays, and no
    id occurs twice in the result. *)
Theorem source_keeps_first_occurrences :
  forall st : KubeconfigSync.State,
    KubeconfigSync.source st
    = KubeconfigSync.without_later_duplicates (KubeconfigSync.all_entities st)
    /\ NoDup (List.map KubeconfigSync.getId (KubeconfigSync.source st)).
Proof.
  intros st.
  assert (E : KubeconfigSync.source st =
              (iter.filter (KubeconfigSync.all_entities st) KubeconfigSync.unseen ∅).1).
  { unfold KubeconfigSync.source, KubeconfigSync.all_entities, iter.collect.
    rewrite flatMap_pure.
    by destruct (iter.filter _ KubeconfigSync.unseen ∅). }
  rewrite E. split.
  - apply (filter_unseen_spec _ []). intros id. simpl. set_solver.
  - apply filter_unseen_NoDup.
Qed.

(** The example of the description: [A = [x; y]] and [B = [x; z]], added
    in that order, merge to [x] of [A], then [y], then [z]. *)
Example source_of_two_overlapping_paths :
  let e id from := {| KubeconfigSync.uid := id; KubeconfigSync.name := id;
                      KubeconfigSync.origin := from |} in
  KubeconfigSync.source
    {| KubeconfigSync.sources :=
         [("A", ([e "x" "A"; e "y" "A"], 1)); ("B", ([e "x" "B"; e "z" "B"], 2))];
       KubeconfigSync.syncListDisposer := None;
       KubeconfigSync.logged := []; KubeconfigSync.watchesStarted := [] |}
  = [e "x" "A"; e "y" "A"; e "z" "B"].
Proof. vm_compute. reflexivity. Qed.

(* ===================================================================== *)
(** ** Properties of insertion-ordered maps *)
(* ===================================================================== *)

Section ESMapFacts.
Context {V : Type}.
Implicit Types (m : ESMap.t V) (k : string) (v : V).

Lemma ESMap_get_None m k : ESMap.get m k = None <-> k ∉ ESMap.keys m.
Proof.
  induction m as [|[k' v'] m IH]; simpl.
  - split; [intros _; apply not_elem_of_nil|done].
  - rewrite not_elem_of_cons. destruct (String.eqb_spec k' k) as [->|Hne].
    + split; [done|]. intros [H _]. by destruct H.
    + rewrite IH. split; [intros H; split; [congruence|exact H]|tauto].
Qed.

Lemma ESMap_has_true m k : ESMap.has m k = true <-> k ∈ ESMap.keys m.
Proof.
  unfold ESMap.has. pose proof (ESMap_get_None m k) as H.
  destruct (ESMap.get m k).
  - split; [|done]. intros _. destruct (decide (k ∈ ESMap.keys m)) as [|Hn]; [done|].
    apply H in Hn. discriminate.
  - split; [done|]. intros Hin. by apply H in Hin.
Qed.

Lemma ESMap_get_set_eq m k v : ESMap.get (ESMap.set m k v) k = Some v.
Proof.
  induction m as [|[k' v'] m IH]; simpl.
  - by rewrite String.eqb_refl.
  - destruct (String.eqb k' k) eqn:E; simpl; rewrite E; [reflexivity|exact IH].
Qed.

Lemma ESMap_get_set_ne m k k' v :
  k' <> k -> ESMap.get (ESMap.set m k v) k' = ESMap.get m k'.
Proof.
  intros Hne. induction m as [|[k0 v0] m IH]; simpl.
  - destruct (String.eqb_spec k k'); [congruence|reflexivity].
  - destruct (String.eqb_spec k0 k) as [->|]; simpl.
    + destruct (String.eqb_spec k k'); [congruence|reflexivity].
    + rewrite IH. reflexivity.
Qed.

Lemma ESMap_has_set m k v : ESMap.has (ESMap.set m k v) k = true.
Proof. unfold ESMap.has. by rewrite ESMap_get_set_eq. Qed.

(** [set] keeps the keys where they are and appends a new one. *)
Lemma ESMap_keys_set m k v :
  ESMap.keys (ESMap.set m k v)
  = if ESMap.has m k then ESMap.keys m else ESMap.keys m ++ [k].
Proof.
  unfold ESMap.has. induction m as [|[k' v'] m IH]; simpl; [reflexivity|].
  destruct (String.eqb_spec k' k) as [->|Hne]; simpl; [reflexivity|].
  rewrite IH. by destruct (ESMap.get m k).
Qed.

Lemma ESMap_wf_set m k v : ESMap.wf m -> ESMap.wf (ESMap.set m k v).
Proof.
  unfold ESMap.wf. intros Hwf. rewrite ESMap_keys_set.
  destruct (ESMap.has m k) eqn:E; [exact Hwf|].
  apply NoDup_app. split; [exact Hwf|]. split; [|apply NoDup_singleton].
  intros x Hx Hk. apply list_elem_of_singleton in Hk as ->.
  apply ESMap_has_true in Hx. congruence.
Qed.

Lemma ESMap_count_le_1 m k : ESMap.wf m -> ESMap.count m k <= 1.
Proof.
  unfold ESMap.wf, ESMap.count. generalize (ESMap.keys m) as l.
  induction l as [|x l IH]; intros Hnd; simpl; [lia|].
  apply NoDup_cons in Hnd as [Hx Hnd].
  destruct (String.eqb_spec k x) as [->|Hne]; simpl; [|by apply IH].
  assert (H0 : List.filter (String.eqb x) l = []); [|rewrite H0; simpl; lia].
  clear IH Hnd. induction l as [|y l IHl]; [reflexivity|]. simpl.
  apply not_elem_of_cons in Hx as [Hxy Hx].
  destruct (String.eqb_spec x y); [congruence|by apply IHl].
Qed.

Lemma ESMap_count_ge_1 m k : ESMap.has m k = true -> 1 <= ESMap.count m k.
Proof.
  rewrite ESMap_has_true. unfold ESMap.count. generalize (ESMap.keys m) as l.
  induction l as [|x l IH]; intros Hin; [by apply elem_of_nil in Hin|].
  simpl. destruct (String.eqb_spec k x) as [->|Hne]; simpl; [lia|].
  apply IH. apply elem_of_cons in Hin as [?|?]; [congruence|done].
Qed.

Lemma ESMap_delete_keys m k :
  forall x, x ∈ ESMap.keys (ESMap.delete m k).2 -> x ∈ ESMap.keys m.
Proof.
  induction m as [|[k' v'] m IH]; intros x; simpl; [done|].
  destruct (String.eqb k' k); simpl.
  - intros H. apply elem_of_cons. by right.
  - destruct (ESMap.delete m k) as [found rest]. simpl in *.
    rewrite !elem_of_cons. intros [->|H]; [by left|right; by apply IH].
Qed.

Lemma ESMap_wf_delete m k : ESMap.wf m -> ESMap.wf (ESMap.delete m k).2.
Proof.
  unfold ESMap.wf. induction m as [|[k' v'] m IH]; simpl; [done|].
  intros Hnd. apply NoDup_cons in Hnd as [Hk Hnd].
  destruct (String.eqb k' k); simpl; [exact Hnd|].
  pose proof (ESMap_delete_keys m k) as Hsub. specialize (IH Hnd).
  destruct (ESMap.delete m k) as [found rest]. simpl in *.
  apply NoDup_cons. split; [|exact IH]. intros Hin. by apply Hk, Hsub.
Qed.
End ESMapFacts.

(* ===================================================================== *)
(** ** Properties of the kubeconfig sync manager *)
(* ===================================================================== *)

Section SyncFacts.
Import KubeconfigSync.
Variable deps : Dependencies.

Lemma startNewSync_has (filePath : string) (st : State) :
  ESMap.has (sources (startNewSync deps filePath st)) filePath = true.
Proof.
  unfold startNewSync. destruct (ESMap.has (sources st) filePath) eqn:E; simpl.
  - exact E.
  - apply ESMap_has_set.
Qed.

Lemma startNewSync_wf (filePath : string) (st : State) :
  ESMap.wf (sources st) -> ESMap.wf (sources (startNewSync deps filePath st)).
Proof.
  intros Hwf. unfold startNewSync.
  destruct (ESMap.has (sources st) filePath); simpl; [exact Hwf|].
  by apply ESMap_wf_set.
Qed.

Lemma stopOldSync_wf (filePath : string) (st : State) :
  ESMap.wf (sources st) -> ESMap.wf (sources (stopOldSync filePath st)).
Proof.
  intros Hwf. unfold stopOldSync.
  pose proof (ESMap_wf_delete (sources st) filePath Hwf) as Hdel.
  destruct (ESMap.delete (sources st) filePath) as [[|] rest]; simpl in *; done.
Qed.

Lemma fold_startNewSync_wf (paths : list string) (st : State) :
  ESMap.wf (sources st) ->
  ESMap.wf (sources (fold_left (fun st p => startNewSync deps p st) paths st)).
Proof.
  revert st. induction paths as [|p paths IH]; intros st Hwf; simpl; [exact Hwf|].
  by apply IH, startNewSync_wf.
Qed.

Lemma fold_stopOldSync_wf (paths : list string) (st : State) :
  ESMap.wf (sources st) ->
  ESMap.wf (sources (fold_left (fun st p => stopOldSync p st) paths st)).
Proof.
  revert st. induction paths as [|p paths IH]; intros st Hwf; simpl; [exact Hwf|].
  by apply IH, stopOldSync_wf.
Qed.

(** Every method of the manager keeps the source map free of repeated
    paths. *)
Lemma manager_keeps_wf (st : State) :
  ESMap.wf (sources st) ->
  ESMap.wf (sources (startSync deps st))
  /\ ESMap.wf (sources (stopSync st))
  /\ forall change, ESMap.wf (sources (onChange deps change st)).
Proof.
  intros Hwf. split; [|split].
  - unfold startSync. simpl. by apply fold_startNewSync_wf, startNewSync_wf.
  - unfold stopSync. by apply fold_stopOldSync_wf.
  - intros [p|p|p]; simpl; [by apply startNewSync_wf|by apply stopOldSync_wf|done].
Qed.

(** At most one source per path, at any time. *)
Lemma reachable_one_source_per_path (st : State) :
  Reachable deps st -> forall p, ESMap.count (sources st) p <= 1.
Proof.
  intros Hreach p. apply ESMap_count_le_1.
  induction Hreach as [|st _ IH|st _ IH|st change _ IH].
  - apply NoDup_nil_2.
  - by apply manager_keeps_wf.
  - by apply manager_keeps_wf.
  - by apply manager_keeps_wf.
Qed.
End SyncFacts.

(** C7. Two calls of [startNewSync] with the same path leave exactly one
    source for that path.  The second call changes nothing but the log, to
    which it adds the one debug line "already syncing file/folder"; it
    starts no file watch, so that the two calls together start one watch
    if the path had no source and none if it had.  No path has more than
    one source afterwards. *)
Theorem startNewSync_twice_one_source :
  forall (deps : KubeconfigSync.Dependencies) (st : KubeconfigSync.State)
         (filePath : string),
    ESMap.wf (KubeconfigSync.sources st) ->
    let st1 := KubeconfigSync.startNewSync deps filePath st in
    let st2 := KubeconfigSync.startNewSync deps filePath st1 in
    ESMap.count (KubeconfigSync.sources st2) filePath = 1
    /\ KubeconfigSync.sources st2 = KubeconfigSync.sources st1
    /\ KubeconfigSync.watchesStarted st2 = KubeconfigSync.watchesStarted st1
    /\ KubeconfigSync.watchesStarted st2
       = KubeconfigSync.watchesStarted st
         ++ (if ESMap.has (KubeconfigSync.sources st) filePath then [] else [filePath])
    /\ KubeconfigSync.syncListDisposer st2 = KubeconfigSync.syncListDisposer st1
    /\ KubeconfigSync.logged st2
       = KubeconfigSync.logged st1 ++ [KubeconfigSync.already_syncing filePath]
    /\ (forall p, ESMap.count (KubeconfigSync.sources st2) p <= 1).
Proof.
  intros deps st filePath Hwf st1 st2.
  pose proof (startNewSync_has deps filePath st) as Hhas. fold st1 in Hhas.
  pose proof (startNewSync_wf deps filePath st Hwf) as Hwf1. fold st1 in Hwf1.
  assert (E : st2 = KubeconfigSync.logger_debug "already syncing file/folder"
                      (KubeconfigSync.MetaFilePath filePath) st1).
  { subst st2. unfold KubeconfigSync.startNewSync at 1. by rewrite Hhas. }
  rewrite E. simpl. repeat split; try reflexivity.
  - pose proof (ESMap_count_le_1 _ filePath Hwf1).
    pose proof (ESMap_count_ge_1 _ filePath Hhas). lia.
  - subst st1. unfold KubeconfigSync.startNewSync.
    destruct (ESMap.has (KubeconfigSync.sources st) filePath); simpl;
      [by rewrite app_nil_r|reflexivity].
  - intros p. by apply ESMap_count_le_1.
Qed.

Lemma startNewSync_twice_one_source_witness :
  let deps := {| KubeconfigSync.directoryForKubeConfigs := "/home/user/.kube";
                 KubeconfigSync.kubeconfigSyncs := [];
                 KubeconfigSync.watchKubeconfigFileChanges := fun _ => ([], 7) |} in
  let st1 := KubeconfigSync.startNewSync deps "/tmp/config" KubeconfigSync.initial in
  let st2 := KubeconfigSync.startNewSync deps "/tmp/config" st1 in
  ESMap.wf (KubeconfigSync.sources KubeconfigSync.initial)
  /\ ESMap.count (KubeconfigSync.sources st2) "/tmp/config" = 1
  /\ KubeconfigSync.watchesStarted st2 = ["/tmp/config"].
Proof.
  intros deps st1 st2.
  assert (Hwf : ESMap.wf (KubeconfigSync.sources KubeconfigSync.initial))
    by apply NoDup_nil_2.
  split; [exact Hwf|].
  destruct (startNewSync_twice_one_source deps KubeconfigSync.initial "/tmp/config" Hwf)
    as (Hcount & _ & _ & Hwatch & _).
  split; [exact Hcount|]. fold st1 st2 in Hwatch. rewrite Hwatch. reflexivity.
Defined.

(* ===================================================================== *)
(** ** Properties of the API registry *)
(* ===================================================================== *)

Section RegistryFacts.
Import ApiManager.

Lemma ESMap_length_set {V : Type} (m : ESMap.t V) (k : string) (v : V) :
  length (ESMap.set m k v) = if ESMap.has m k then length m else S (length m).
Proof.
  pose proof (ESMap_keys_set m k v) as H. apply (f_equal (@length string)) in H.
  unfold ESMap.keys in H. rewrite length_map in H. rewrite H.
  destruct (ESMap.has m k); [by rewrite length_map|].
  rewrite length_app, length_map. simpl. lia.
Qed.

Lemma rebind_store_room (a : KubeApi) (store : KubeObjectStore) (key : string)
    (m : ESMap.t KubeObjectStore) :
  rebind_room a (rebind_store a store key m) = rebind_room a m.
Proof.
  unfold rebind_room, rebind_store. destruct (same_api (api store) a); [|reflexivity].
  rewrite ESMap_length_set, ESMap_has_set.
  destruct (ESMap.has m (apiBase a)); lia.
Qed.

Lemma forEach_rebind_fuel (a : KubeApi) (fuel extra i : nat)
    (m : ESMap.t KubeObjectStore) :
  rebind_room a m <= fuel + i ->
  forEach_from (fuel + extra) i (rebind_store a) m
  = forEach_from fuel i (rebind_store a) m.
Proof.
  revert i m. induction fuel as [|fuel IH]; intros i m Hroom.
  - assert (Hnone : m !! i = None).
    { apply lookup_ge_None. unfold rebind_room in Hroom. lia. }
    simpl. destruct extra; simpl; [reflexivity|]. by rewrite Hnone.
  - simpl. destruct (m !! i) as [[key store]|]; [|reflexivity].
    apply IH. rewrite rebind_store_room. lia.
Qed.

(** The walk over the stores in [registerApi] ends for want of entries,
    not of fuel: more fuel gives the same stores. *)
Lemma rebind_fuel_enough (a : KubeApi) (m : ESMap.t KubeObjectStore) (extra : nat) :
  forEach_from (2 + ESMap.size m + extra) 0 (rebind_store a) m
  = forEach_from (2 + ESMap.size m) 0 (rebind_store a) m.
Proof.
  apply forEach_rebind_fuel. unfold rebind_room, ESMap.size.
  destruct (ESMap.has m (apiBase a)); lia.
Qed.

(** The api map after [registerApi(api)]. *)
Lemma registerApi_apis (a : KubeApi) (m : State) :
  apis (registerApi (inr a) None m)
  = if String.eqb (apiBase a) "" then apis m
    else if ESMap.has (apis m) (apiBase a) then apis m
         else ESMap.set (apis m) (apiBase a) a.
Proof.
  unfold registerApi. simpl.
  destruct (String.eqb (apiBase a) ""); simpl; [reflexivity|].
  destruct (ESMap.has (apis m) (apiBase a)); reflexivity.
Qed.

Lemma ESMap_has_get {V : Type} (m : ESMap.t V) (k : string) :
  ESMap.has m k = match ESMap.get m k with Some _ => true | None => false end.
Proof. reflexivity. Qed.
End RegistryFacts.

(** C6, as the registry has it.  Let [c1] and [c2] have the same
    [apiBase].  After [registerApi(c1)] and then [registerApi(c2)] the api
    map is what the first call left.  If the [apiBase] is not empty and
    was not registered before, it maps to [c1]; if it was registered
    before, it still maps to the client it had; every other key of the api
    map is unchanged. *)
Theorem registerApi_twice_keeps_first :
  forall (m : ApiManager.State) (c1 c2 : ApiManager.KubeApi),
    ApiManager.apiBase c1 = ApiManager.apiBase c2 ->
    let m1 := ApiManager.registerApi (inr c1) None m in
    let m2 := ApiManager.registerApi (inr c2) None m1 in
    ApiManager.apis m2 = ApiManager.apis m1
    /\ (ApiManager.apiBase c1 <> "" ->
        ESMap.get (ApiManager.apis m) (ApiManager.apiBase c1) = None ->
        ESMap.get (ApiManager.apis m2) (ApiManager.apiBase c1) = Some c1)
    /\ (forall c0,
        ESMap.get (ApiManager.apis m) (ApiManager.apiBase c1) = Some c0 ->
        ESMap.get (ApiManager.apis m2) (ApiManager.apiBase c1) = Some c0)
    /\ (forall key, key <> ApiManager.apiBase c1 ->
        ESMap.get (ApiManager.apis m2) key = ESMap.get (ApiManager.apis m) key).
Proof.
  intros m c1 c2 Hbase m1 m2.
  assert (E1 : ApiManager.apis m1
               = if String.eqb (ApiManager.apiBase c1) "" then ApiManager.apis m
                 else if ESMap.has (ApiManager.apis m) (ApiManager.apiBase c1)
                      then ApiManager.apis m
                      else ESMap.set (ApiManager.apis m) (ApiManager.apiBase c1) c1)
    by apply registerApi_apis.
  assert (E2 : ApiManager.apis m2 = ApiManager.apis m1).
  { subst m2. rewrite registerApi_apis, <- Hbase, E1.
    destruct (String.eqb (ApiManager.apiBase c1) "") eqn:Eempty; [reflexivity|].
    destruct (ESMap.has (ApiManager.apis m) (ApiManager.apiBase c1)) eqn:Ehas.
    - by rewrite Ehas.
    - by rewrite ESMap_has_set. }
  rewrite E2, E1. split; [reflexivity|]. rewrite ESMap_has_get.
  split; [|split].
  - intros Hne Hnone. apply String.eqb_neq in Hne. rewrite Hne, Hnone.
    apply ESMap_get_set_eq.
  - intros c0 Hsome. rewrite Hsome.
    by destruct (String.eqb (ApiManager.apiBase c1) "").
  - intros key Hkey.
    destruct (String.eqb (ApiManager.apiBase c1) ""); [reflexivity|].
    destruct (ESMap.get (ApiManager.apis m) (ApiManager.apiBase c1)); [reflexivity|].
    by apply ESMap_get_set_ne.
Qed.

Lemma registerApi_twice_keeps_first_witness :
  let m2 := ApiManager.registerApi (inr (Fixture.podApi 2)) None
              (ApiManager.registerApi (inr (Fixture.podApi 1)) None ApiManager.empty) in
  ESMap.get (ApiManager.apis m2) "/api/v1/pods" = Some (Fixture.podApi 1)
  /\ ESMap.get (ApiManager.apis m2) "/api/v1/nodes" = None.
Proof.
  destruct (registerApi_twice_keeps_first ApiManager.empty
              (Fixture.podApi 1) (Fixture.podApi 2) eq_refl)
    as (_ & Hfresh & _ & Hother).
  split.
  - apply Hfresh; [discriminate|reflexivity].
  - apply (Hother "/api/v1/nodes"). discriminate.
Defined.

(** C6 as stated fails where the [apiBase] is taken already: with a pods
    client registered, registering two more pods clients leaves the first
    of the three in place, not [c1]. *)
Lemma registerApi_twice_counterexample :
  let m := ApiManager.registerApi (inr (Fixture.podApi 0)) None ApiManager.empty in
  let c1 := Fixture.podApi 1 in
  let c2 := Fixture.podApi 2 in
  let m2 := ApiManager.registerApi (inr c2) None (ApiManager.registerApi (inr c1) None m) in
  ApiManager.apiBase c1 = ApiManager.apiBase c2
  /\ ESMap.get (ApiManager.apis m2) (ApiManager.apiBase c1) = Some (Fixture.podApi 0)
  /\ ESMap.get (ApiManager.apis m2) (ApiManager.apiBase c1) <> Some c1.
Proof. vm_compute. repeat split; discriminate. Qed.

Section LookupFacts.
Import ApiManager.

Lemma find_pure_None {T : Type} (f : T -> value) (l : list T) :
  (forall x, x ∈ l -> truthy (f x) = false) ->
  (iter.find l (iter.pure f) tt).1 = None.
Proof.
  induction l as [|x l IH]; intros H; simpl; [reflexivity|].
  rewrite (H x) by apply list_elem_of_here.
  apply IH. intros y Hy. apply H. by apply elem_of_cons; right.
Qed.

Lemma find_pure_Some {T : Type} (f : T -> value) (l : list T) (x : T) :
  (iter.find l (iter.pure f) tt).1 = Some x -> x ∈ l /\ truthy (f x) = true.
Proof.
  induction l as [|y l IH]; simpl; [discriminate|].
  destruct (truthy (f y)) eqn:E; simpl.
  - intros [= <-]. split; [apply list_elem_of_here|exact E].
  - intros H. destruct (IH H) as [Hin Ht]. split; [|exact Ht].
    by apply elem_of_cons; right.
Qed.

Lemma app_nil_string (s : string) : "" +:+ s = s.
Proof. reflexivity. Qed.

Lemma app_cons_string (c : Ascii.ascii) (p s : string) :
  String c p +:+ s = String c (p +:+ s).
Proof. reflexivity. Qed.

Lemma substring_whole (t : string) : String.substring 0 (String.length t) t = t.
Proof. induction t as [|a t IH]; simpl; [reflexivity|]. by rewrite IH. Qed.

Lemma length_app_string (p s : string) :
  String.length (p +:+ s) = String.length p + String.length s.
Proof.
  induction p as [|a p IH]; [reflexivity|].
  rewrite app_cons_string. simpl. by rewrite IH.
Qed.

(** [endsWith] is the suffix test. *)
Lemma endsWith_spec (s suffix : string) :
  endsWith s suffix = true <-> exists p, s = p +:+ suffix.
Proof.
  unfold endsWith. rewrite andb_true_iff, Nat.leb_le, String.eqb_eq.
  induction s as [|c s IH].
  - split.
    + intros [Hlen _]. destruct suffix; simpl in Hlen; [|lia]. by exists "".
    + intros [p Hp]. apply (f_equal String.length) in Hp.
      rewrite length_app_string in Hp. simpl in Hp.
      destruct suffix; simpl in Hp; [|lia]. split; [simpl; lia|reflexivity].
  - destruct (decide (String.length suffix <= String.length s)) as [Hle|Hgt].
    + replace (String.length (String c s) - String.length suffix)
        with (S (String.length s - String.length suffix)) by (simpl; lia).
      cbn [String.substring]. split.
      * intros [_ Hsub]. destruct IH as [IH _]. destruct (IH (conj Hle Hsub)) as [p ->].
        by exists (String c p).
      * intros [p Hp]. split; [simpl; lia|]. apply IH.
        destruct p as [|c' p].
        -- rewrite app_nil_string in Hp. subst suffix. simpl in Hle. lia.
        -- rewrite app_cons_string in Hp. injection Hp as -> ->. by exists p.
    + split.
      * intros [Hlen Hsub]. simpl in Hlen.
        assert (Hl : String.length suffix = String.length (String c s))
          by (simpl; lia).
        rewrite Hl, Nat.sub_diag, substring_whole in Hsub.
        exists "". by rewrite app_nil_string.
      * intros [p Hp]. destruct p as [|c' p].
        -- rewrite app_nil_string in Hp. subst suffix. split; [lia|].
           by rewrite Nat.sub_diag, substring_whole.
        -- rewrite app_cons_string in Hp. injection Hp as -> ->. exfalso.
           apply Hgt. rewrite length_app_string. lia.
Qed.
End LookupFacts.

(** C10. A reference whose [kind] is missing or empty resolves to the
    empty string, whatever the registry holds: [lookupApiLink] makes no
    call on the registry and builds no url. *)
Theorem lookupApiLink_without_kind :
  forall (imports : ApiManager.Imports) (apiVersion namespace : option string)
         (name : string) (parentObject : option ApiManager.KubeObject)
         (m : ApiManager.State),
    let absent := {| ApiManager.ref_kind := None;
                     ApiManager.ref_apiVersion := apiVersion;
                     ApiManager.ref_name := name;
                     ApiManager.ref_namespace := namespace |} in
    let blank := {| ApiManager.ref_kind := Some "";
                    ApiManager.ref_apiVersion := apiVersion;
                    ApiManager.ref_name := name;
                    ApiManager.ref_namespace := namespace |} in
    ApiManager.lookupApiLink_calls imports absent parentObject m = ("", [])
    /\ ApiManager.lookupApiLink_calls imports blank parentObject m = ("", [])
    /\ ApiManager.lookupApiLink imports absent parentObject m = ""
    /\ ApiManager.lookupApiLink imports blank parentObject m = "".
Proof. intros. repeat split. Qed.

(** C8. For a reference with a kind, [lookupApiLink] returns the url of a
    registered client of that kind, or a generated link at which a client
    is registered, or the guessed link.  When no registered client matches
    by kind and version, none is registered at the links generated under
    [/apis] and [/api], and none matches by kind alone, the result is the
    link built from the lowercased kind with "es" appended if the kind
    ends in "s" and "s" appended otherwise.  The lowering is that of the
    language, [toLowerCase], whatever the letters of the kind. *)
Theorem lookupApiLink_degrades_to_guess :
  forall (imports : ApiManager.Imports) (r : ApiManager.ObjectReference)
         (parentObject : option ApiManager.KubeObject) (m : ApiManager.State)
         (k : string),
    ApiManager.ref_kind r = Some k -> k <> "" ->
    let apiVersion := default "v1" (ApiManager.ref_apiVersion r) in
    let namespace := match ApiManager.ref_namespace r with
                     | Some ns => Some ns
                     | None => parentObject ≫= ApiManager.getNs
                     end in
    let link prefix :=
      {| ApiManager.link_apiPrefix := prefix;
         ApiManager.link_apiVersion := apiVersion;
         ApiManager.link_name := ApiManager.ref_name r;
         ApiManager.link_namespace := namespace;
         ApiManager.link_resource :=
           ApiManager.toLowerCase imports k
           +:+ (if endsWith k "s" then "es" else "s") |} in
    let url := ApiManager.lookupApiLink imports r parentObject m in
    ((exists a, a ∈ ESMap.values (ApiManager.apis m) /\ ApiManager.kind a = k
                /\ url = ApiManager.getUrl imports a namespace (ApiManager.ref_name r))
     \/ (exists p, p ∈ ApiManager.apiPrefixes
                   /\ url = ApiManager.createKubeApiURL imports (link (Some p))
                   /\ is_Some (ApiManager.getApi imports (inl url) m))
     \/ url = ApiManager.createKubeApiURL imports (link None))
    /\ ((forall a, a ∈ ESMap.values (ApiManager.apis m) ->
                   ~ (ApiManager.kind a = k
                      /\ ApiManager.apiVersionWithGroup a = apiVersion)) ->
        ApiManager.getApi imports
          (inl (ApiManager.createKubeApiURL imports (link (Some "/apis")))) m = None ->
        ApiManager.getApi imports
          (inl (ApiManager.createKubeApiURL imports (link (Some "/api")))) m = None ->
        (forall a, a ∈ ESMap.values (ApiManager.apis m) -> ApiManager.kind a <> k) ->
        url = ApiManager.createKubeApiURL imports (link None)).
Proof.
  intros imports r parentObject m k Hkind Hk apiVersion namespace link url.
  assert (Hres : ApiManager.resource_of_kind imports k
                 = ApiManager.toLowerCase imports k
                   +:+ (if endsWith k "s" then "es" else "s")).
  { unfold ApiManager.resource_of_kind. by destruct (endsWith k "s"). }
  subst url. unfold ApiManager.lookupApiLink, ApiManager.lookupApiLink_calls.
  rewrite Hkind. change (truthy_str (Some k)) with (negb (String.eqb k "")).
  change (default "" (Some k)) with k.
  apply String.eqb_neq in Hk. rewrite Hk.
  cbn [negb]. fold apiVersion. fold namespace. rewrite Hres.
  change (fun p : string =>
            {| ApiManager.link_apiPrefix := Some p;
               ApiManager.link_apiVersion := apiVersion;
               ApiManager.link_name := ApiManager.ref_name r;
               ApiManager.link_namespace := namespace;
               ApiManager.link_resource :=
                 ApiManager.toLowerCase imports k
                 +:+ (if endsWith k "s" then "es" else "s") |})
    with (fun p : string => link (Some p)).
  fold (link None).
  set (byVersion := fun a : ApiManager.KubeApi =>
         VBool (String.eqb (ApiManager.kind a) k
                && String.eqb (ApiManager.apiVersionWithGroup a) apiVersion)).
  set (byKind := fun a : ApiManager.KubeApi => VBool (String.eqb (ApiManager.kind a) k)).
  assert (HbyVersion : forall a,
             ApiManager.getApi imports (inr byVersion) m = Some a ->
             a ∈ ESMap.values (ApiManager.apis m) /\ ApiManager.kind a = k
             /\ ApiManager.apiVersionWithGroup a = apiVersion).
  { intros a Ha. apply find_pure_Some in Ha as [Hin Ht]. split; [exact Hin|].
    simpl in Ht. apply andb_true_iff in Ht as [H1 H2].
    by rewrite String.eqb_eq in H1, H2. }
  assert (HbyKind : forall a,
             ApiManager.getApi imports (inr byKind) m = Some a ->
             a ∈ ESMap.values (ApiManager.apis m) /\ ApiManager.kind a = k).
  { intros a Ha. apply find_pure_Some in Ha as [Hin Ht]. split; [exact Hin|].
    simpl in Ht. by rewrite String.eqb_eq in Ht. }
  destruct (ApiManager.getApi imports (inr byVersion) m) as [a|] eqn:E1.
  { destruct (HbyVersion a eq_refl) as (Hin & Hka & Hva). cbn [fst]. split.
    - left. by exists a.
    - intros Hnone _ _ _. exfalso. by apply (Hnone a Hin). }
  cbn [ApiManager.lookup_generated ApiManager.apiPrefixes].
  destruct (ApiManager.getApi imports
              (inl (ApiManager.createKubeApiURL imports (link (Some "/apis")))) m)
    as [a1|] eqn:E2.
  { cbn [fst]. split.
    - right; left. exists "/apis". split; [apply list_elem_of_here|].
      split; [reflexivity|]. rewrite E2. by eexists.
    - intros _ Hnone. discriminate Hnone. }
  destruct (ApiManager.getApi imports
              (inl (ApiManager.createKubeApiURL imports (link (Some "/api")))) m)
    as [a2|] eqn:E3.
  { cbn [fst]. split.
    - right; left. exists "/api". split; [apply list_elem_of_further, list_elem_of_here|].
      split; [reflexivity|]. rewrite E3. by eexists.
    - intros _ _ Hnone. discriminate Hnone. }
  destruct (ApiManager.getApi imports (inr byKind) m) as [a3|] eqn:E4.
  { destruct (HbyKind a3 eq_refl) as (Hin & Hka). cbn [fst]. split.
    - left. by exists a3.
    - intros _ _ _ Hnone. exfalso. by apply (Hnone a3 Hin). }
  cbn [fst]. split; [by right; right|reflexivity].
Qed.

Lemma lookupApiLink_degrades_to_guess_witness :
  ApiManager.lookupApiLink Fixture.imports
    {| ApiManager.ref_kind := Some "Ingress";
       ApiManager.ref_apiVersion := Some "networking.k8s.io/v1";
       ApiManager.ref_name := "web";
       ApiManager.ref_namespace := Some "default" |}
    None
    (ApiManager.registerApi (inr (Fixture.podApi 0)) None ApiManager.empty)
  = "/apis/networking.k8s.io/v1/namespaces/default/ingresses/web".
Proof.
  destruct (lookupApiLink_degrades_to_guess Fixture.imports
              {| ApiManager.ref_kind := Some "Ingress";
                 ApiManager.ref_apiVersion := Some "networking.k8s.io/v1";
                 ApiManager.ref_name := "web";
                 ApiManager.ref_namespace := Some "default" |}
              None
              (ApiManager.registerApi (inr (Fixture.podApi 0)) None ApiManager.empty)
              "Ingress" eq_refl ltac:(discriminate)) as [_ Hguess].
  rewrite Hguess.
  - reflexivity.
  - intros a Ha [Hkind _]. apply list_elem_of_singleton in Ha. subst a. discriminate Hkind.
  - reflexivity.
  - reflexivity.
  - intros a Ha Hkind. apply list_elem_of_singleton in Ha. subst a. discriminate Hkind.
Defined.

(** The four ways [lookupApiLink] resolves a reference, on a registry
    holding a pods client and a nodes client. *)
Example lookupApiLink_cases :
  let m := ApiManager.registerApi (inr Fixture.nodeApi) None
             (ApiManager.registerApi (inr (Fixture.podApi 0)) None ApiManager.empty) in
  let r kind_ version :=
    {| ApiManager.ref_kind := Some kind_; ApiManager.ref_apiVersion := version;
       ApiManager.ref_name := "x"; ApiManager.ref_namespace := None |} in
  ApiManager.lookupApiLink Fixture.imports (r "Pod" None) None m = "/api/v1/pods/x"
  /\ ApiManager.lookupApiLink Fixture.imports (r "Pod" (Some "v2")) None m = "/api/v1/pods/x"
  /\ ApiManager.lookupApiLink Fixture.imports (r "Class" None) None m = "/apis/v1/classes/x"
  /\ ApiManager.lookupApiLink Fixture.imports (r "CLASS" None) None m = "/apis/v1/classs/x"
  /\ ApiManager.lookupApiLink_calls Fixture.imports (r "" None) None m = ("", []).
Proof. vm_compute. repeat split. Qed.

(* ===================================================================== *)
(** ** Properties of the error hook of the Kubernetes JSON client *)
(* ===================================================================== *)

(** C5, as the hook has it.  A payload that is a string comes back as the
    single message.  Otherwise, when [status] and [reason] are both
    present and not empty, the single message is [message] if that is
    present and not empty, and "status: reason" if not; when neither
    [status] nor [reason] is present the result is that of the formatter
    of the base class. *)
Theorem parseError_cases :
  forall (super_parseError :
            KubeJsonApi.ErrorPayload -> KubeJsonApi.Response -> list string)
         (res : KubeJsonApi.Response),
    (forall text,
        KubeJsonApi.parseError super_parseError (KubeJsonApi.ErrorText text) res = [text])
    /\ (forall status reason message,
        status <> "" -> reason <> "" ->
        KubeJsonApi.parseError super_parseError
          (KubeJsonApi.ErrorObject
             {| KubeJsonApi.status := Some status; KubeJsonApi.reason := Some reason;
                KubeJsonApi.message := message |}) res
        = [ match message with
            | Some text => if String.eqb text "" then status +:+ ": " +:+ reason else text
            | None => status +:+ ": " +:+ reason
            end ])
    /\ (forall message,
        let error := KubeJsonApi.ErrorObject
                       {| KubeJsonApi.status := None; KubeJsonApi.reason := None;
                          KubeJsonApi.message := message |} in
        KubeJsonApi.parseError super_parseError error res = super_parseError error res).
Proof.
  intros super_parseError res. split; [reflexivity|]. split; [|reflexivity].
  intros status reason message Hs Hr. unfold KubeJsonApi.parseError. simpl.
  apply String.eqb_neq in Hs, Hr. rewrite Hs, Hr. simpl.
  destruct message as [text|]; simpl; [|reflexivity].
  by destruct (String.eqb text "").
Qed.

Lemma parseError_cases_witness :
  KubeJsonApi.parseError Fixture.super_parseError
    (KubeJsonApi.ErrorObject
       {| KubeJsonApi.status := Some "Failure"; KubeJsonApi.reason := Some "NotFound";
          KubeJsonApi.message := Some "pods foo not found" |})
    {| KubeJsonApi.statusCode := 404; KubeJsonApi.statusText := "Not Found" |}
  = ["pods foo not found"].
Proof.
  destruct (parseError_cases Fixture.super_parseError
              {| KubeJsonApi.statusCode := 404; KubeJsonApi.statusText := "Not Found" |})
    as (_ & Hobject & _).
  rewrite Hobject; [reflexivity|discriminate|discriminate].
Defined.

(** C5 as stated fails on a [message] that is present but empty: the
    description asks for that message, the hook answers with
    "status: reason". *)
Lemma parseError_counterexample :
  let error := KubeJsonApi.ErrorObject
                 {| KubeJsonApi.status := Some "Failure";
                    KubeJsonApi.reason := Some "NotFound";
                    KubeJsonApi.message := Some "" |} in
  let res := {| KubeJsonApi.statusCode := 404; KubeJsonApi.statusText := "Not Found" |} in
  KubeJsonApi.parseError_described Fixture.super_parseError error res = Some [""]
  /\ KubeJsonApi.parseError Fixture.super_parseError error res = ["Failure: NotFound"]
  /\ Some (KubeJsonApi.parseError Fixture.super_parseError error res)
     <> KubeJsonApi.parseError_described Fixture.super_parseError error res.
Proof. vm_compute. repeat split; discriminate. Qed.

(* ===================================================================== *)
(** ** Properties of the resource client *)
(* ===================================================================== *)

Section NegotiationFacts.
Import KubeApi.
Variables (cluster : Cluster) (o : Options).

Lemma negotiate_first_match (pre post : list ApiBase) (c : ApiBase) :
  (forall c', c' ∈ pre -> lists_resource cluster o c' = false) ->
  lists_resource cluster o c = true ->
  negotiate cluster o (pre ++ c :: post)
  = (Some c, List.map resource_list_request pre
             ++ [resource_list_request c; group_request c]).
Proof.
  intros Hpre Hc. induction pre as [|c0 pre IH]; simpl.
  - by rewrite Hc.
  - rewrite (Hpre c0) by apply list_elem_of_here.
    rewrite IH; [reflexivity|].
    intros c' Hin. apply Hpre. by apply list_elem_of_further.
Qed.

Lemma negotiate_no_match (cs : list ApiBase) :
  (forall c, c ∈ cs -> lists_resource cluster o c = false) ->
  negotiate cluster o cs = (None, List.map resource_list_request cs).
Proof.
  intros Hcs. induction cs as [|c cs IH]; simpl; [reflexivity|].
  rewrite (Hcs c) by apply list_elem_of_here.
  rewrite IH; [reflexivity|].
  intros c' Hin. apply Hcs. by apply list_elem_of_further.
Qed.
End NegotiationFacts.

(** C2. With [checkPreferredVersion] set, negotiation asks for the
    resource list of each candidate in the declared order, primary first,
    and ends at the first candidate whose list names the resource: the
    requests sent are the resource lists of the candidates before it, its
    own, and its group metadata, and nothing for the candidates behind
    it, whatever they would answer.  It locks in that candidate's prefix
    and group.  When no candidate names the resource, every candidate is
    asked, in order. *)
Theorem negotiation_stops_at_first_match :
  forall (cluster : KubeApi.Cluster) (o : KubeApi.Options),
    KubeApi.checkPreferredVersion o = true ->
    (forall (pre post : list KubeApi.ApiBase) (c : KubeApi.ApiBase),
        KubeApi.candidates o = pre ++ c :: post ->
        (forall c', c' ∈ pre -> KubeApi.lists_resource cluster o c' = false) ->
        KubeApi.lists_resource cluster o c = true ->
        (KubeApi.resolve cluster o).2
        = List.map KubeApi.resource_list_request pre
          ++ [KubeApi.resource_list_request c; KubeApi.group_request c]
        /\ KubeApi.resolved_apiPrefix (KubeApi.resolve cluster o).1 = KubeApi.apiPrefix c
        /\ KubeApi.resolved_apiGroup (KubeApi.resolve cluster o).1 = KubeApi.apiGroup c)
    /\ ((forall c, c ∈ KubeApi.candidates o -> KubeApi.lists_resource cluster o c = false) ->
        (KubeApi.resolve cluster o).2
        = List.map KubeApi.resource_list_request (KubeApi.candidates o)).
Proof.
  intros cluster o Hflag. split.
  - intros pre post c Hcs Hpre Hc.
    unfold KubeApi.resolve. rewrite Hflag, Hcs.
    rewrite (negotiate_first_match cluster o pre post c Hpre Hc). by simpl.
  - intros Hnone. unfold KubeApi.resolve. rewrite Hflag.
    by rewrite (negotiate_no_match cluster o _ Hnone).
Qed.

(** The run of kube-api.test.ts in which both groups serve ingresses: the
    fallback is not asked. *)
Lemma negotiation_stops_at_first_match_witness :
  (KubeApi.resolve Fixture.cluster_both Fixture.ingressApi).2
  = [ {| KubeApi.method := KubeApi.GET; KubeApi.url := "/apis/networking.k8s.io/v1" |};
      {| KubeApi.method := KubeApi.GET; KubeApi.url := "/apis/networking.k8s.io" |} ].
Proof.
  destruct (negotiation_stops_at_first_match Fixture.cluster_both Fixture.ingressApi
              eq_refl) as [Hfirst _].
  destruct (Hfirst [] (KubeApi.fallbackApiBases Fixture.ingressApi)
              (KubeApi.apiBase Fixture.ingressApi) eq_refl) as (Hsent & _).
  - intros c' Hc'. by apply elem_of_nil in Hc'.
  - reflexivity.
  - rewrite Hsent. reflexivity.
Defined.

(** The run of kube-api.test.ts in which only the old group serves
    ingresses, and the one in which no group does. *)
Example negotiation_falls_back :
  KubeApi.resolve Fixture.cluster_old Fixture.ingressApi
  = ({| KubeApi.resolved_apiPrefix := "/apis"; KubeApi.resolved_apiGroup := "extensions";
        KubeApi.apiVersionPreferred := "v1beta1" |},
     [ {| KubeApi.method := KubeApi.GET; KubeApi.url := "/apis/networking.k8s.io/v1" |};
       {| KubeApi.method := KubeApi.GET; KubeApi.url := "/apis/extensions/v1beta1" |};
       {| KubeApi.method := KubeApi.GET; KubeApi.url := "/apis/extensions" |} ]).
Proof. vm_compute. reflexivity. Qed.

(** C4. On a cluster-scoped kind, [delete] with a namespace that is not
    empty is rejected and nothing is sent.  With the namespace left out or
    empty, exactly one [DELETE] is sent, to the url of the resource
    without a namespace segment, and the call resolves with what the
    transport answers. *)
Theorem delete_cluster_scoped :
  forall (o : KubeApi.Options) (r : KubeApi.Resolved)
         (transport : KubeApi.Request -> option string) (name : string),
    KubeApi.namespaced o = false ->
    (forall ns, ns <> "" ->
        KubeApi.delete o r transport name (Some ns) = (KubeApi.RejectedByClient, []))
    /\ (forall namespace, namespace = None \/ namespace = Some "" ->
        let req :=
          {| KubeApi.method := KubeApi.DELETE;
             KubeApi.url :=
               (KubeApi.resolved_apiPrefix r
                +:+ KubeApi.join_path [KubeApi.resolved_apiGroup r;
                                       KubeApi.apiVersionPreferred r;
                                       KubeApi.resource o; name])
               +:+ "?propagationPolicy=Background" |} in
        (KubeApi.delete o r transport name namespace).2 = [req]
        /\ (KubeApi.delete o r transport name namespace).1 <> KubeApi.RejectedByClient
        /\ (forall body, transport req = Some body ->
            (KubeApi.delete o r transport name namespace).1 = KubeApi.ResolvedWith body)).
Proof.
  intros o r transport name Hscope. split.
  - intros ns Hns. unfold KubeApi.delete. rewrite Hscope. simpl.
    apply String.eqb_neq in Hns. by rewrite Hns.
  - intros namespace Hnamespace req.
    assert (E : KubeApi.delete o r transport name namespace
                = (match transport req with
                   | Some body => KubeApi.ResolvedWith body
                   | None => KubeApi.RejectedByTransport
                   end, [req])).
    { unfold KubeApi.delete, KubeApi.getUrl. rewrite Hscope.
      destruct Hnamespace as [->| ->]; reflexivity. }
    rewrite E. simpl. split; [reflexivity|]. split.
    + by destruct (transport req).
    + by intros body ->.
Qed.

(** The three deletions of a namespace in kube-api.test.ts. *)
Lemma delete_cluster_scoped_witness :
  let r := {| KubeApi.resolved_apiPrefix := "/api"; KubeApi.resolved_apiGroup := "";
              KubeApi.apiVersionPreferred := "v1" |} in
  let transport := fun _ : KubeApi.Request => Some "{}" in
  let sent := [ {| KubeApi.method := KubeApi.DELETE;
                   KubeApi.url := "/api/v1/namespaces/foo?propagationPolicy=Background" |} ] in
  KubeApi.delete Fixture.namespaceApi r transport "foo" (Some "test")
  = (KubeApi.RejectedByClient, [])
  /\ (KubeApi.delete Fixture.namespaceApi r transport "foo" None).2 = sent
  /\ (KubeApi.delete Fixture.namespaceApi r transport "foo" (Some "")).2 = sent.
Proof.
  intros r transport sent.
  destruct (delete_cluster_scoped Fixture.namespaceApi r transport "foo" eq_refl)
    as [Hreject Hsend].
  split; [apply Hreject; discriminate|]. split.
  - destruct (Hsend None (or_introl eq_refl)) as (H & _). rewrite H. reflexivity.
  - destruct (Hsend (Some "") (or_intror eq_refl)) as (H & _). rewrite H. reflexivity.
Defined.

Section WatchFacts.
Import KubeApi.
Variables (o : Options) (r : Resolved).

Lemma watch_inv_init (w : WatchOptions) (rv : string) :
  watch_inv w (watch o r w rv).
Proof. split; [reflexivity|]. simpl. split; [intros _; by eexists|reflexivity]. Qed.

Lemma watch_inv_step (w : WatchOptions) (s : Subscription) (e : Event) :
  watch_inv w s -> watch_inv w (step o r s e).
Proof.
  unfold watch_inv. intros [Hopt Hlive]. destruct e as [line|rv| | |]; simpl.
  - destruct (in_flight s) eqn:E; simpl; rewrite ?E; by split.
  - by split.
  - destruct (in_flight s) eqn:E; simpl; rewrite ?E; [|by split].
    destruct (stopped s) eqn:Es; simpl.
    + destruct Hlive as [_ H]. discriminate H. by eexists.
    + split; [exact Hopt|]. split; [intros _; by eexists|reflexivity].
  - split; [exact Hopt|]. split; [discriminate|]. intros [? H]. discriminate H.
  - split; [exact Hopt|]. split; [discriminate|]. intros [? H]. discriminate H.
Qed.

Lemma watch_inv_run (w : WatchOptions) (es : list Event) (s : Subscription) :
  watch_inv w s -> watch_inv w (run o r s es).
Proof.
  revert s. induction es as [|e es IH]; intros s Hinv; [exact Hinv|].
  apply IH. by apply watch_inv_step.
Qed.

(** A stopped subscription sends nothing more and opens no stream. *)
Lemma stopped_stays_silent (es : list Event) (s : Subscription) :
  stopped s = true -> in_flight s = None ->
  sent (run o r s es) = sent s
  /\ in_flight (run o r s es) = None
  /\ stopped (run o r s es) = true.
Proof.
  revert s. induction es as [|e es IH]; intros s Hstop Hflight; [done|].
  change (run o r s (e :: es)) with (run o r (step o r s e) es).
  assert (Hstep : sent (step o r s e) = sent s
                  /\ stopped (step o r s e) = true
                  /\ in_flight (step o r s e) = None).
  { destruct e; simpl; rewrite ?Hflight; done. }
  destruct Hstep as (Hsent & Hstop' & Hflight').
  destruct (IH _ Hstop' Hflight') as (H1 & H2 & H3).
  rewrite H1, Hsent. done.
Qed.
End WatchFacts.

Section WatchRequests.
Import KubeApi.
Variables (o : Options) (r : Resolved).

Lemma step_sent_grows (s : Subscription) (e : Event) :
  exists more, sent (step o r s e) = sent s ++ more.
Proof.
  destruct e; simpl.
  - destruct (in_flight s); exists []; simpl; by rewrite app_nil_r.
  - exists []. by rewrite app_nil_r.
  - destruct (in_flight s); [destruct (stopped s)|]; simpl;
      [exists []; by rewrite app_nil_r|by eexists|exists []; by rewrite app_nil_r].
  - exists []. by rewrite app_nil_r.
  - exists []. by rewrite app_nil_r.
Qed.

Lemma run_sent_grows (es : list Event) (s : Subscription) :
  exists more, sent (run o r s es) = sent s ++ more.
Proof.
  revert s. induction es as [|e es IH]; intros s.
  - exists []. simpl. by rewrite app_nil_r.
  - change (run o r s (e :: es)) with (run o r (step o r s e) es).
    destruct (IH (step o r s e)) as [more2 H2].
    destruct (step_sent_grows s e) as [more1 H1].
    exists (more1 ++ more2). by rewrite H2, H1, app_assoc.
Qed.
End WatchRequests.

(** C3. Take a subscription opened by [watch] and any events since.  Its
    first request is the one [watch] sent.  If it has not been stopped and
    its stream ends, one request is sent, the same as the first but for
    the checkpoint of the moment (same namespace, same timeout), and its
    stream is in flight.  Once the stop handle is called or the caller's
    abort controller fires, the stream in flight is aborted, none is in
    flight, and whatever happens later no request is sent any more. *)
Theorem watch_reconnects_until_stopped :
  forall (o : KubeApi.Options) (r : KubeApi.Resolved) (w : KubeApi.WatchOptions)
         (rv : string) (es : list KubeApi.Event),
    let s := KubeApi.run o r (KubeApi.watch o r w rv) es in
    (exists later, KubeApi.sent s = KubeApi.watch_request o r w rv :: later)
    /\ (KubeApi.stopped s = false ->
        let s' := KubeApi.step o r s KubeApi.StreamEnd in
        KubeApi.sent s'
        = KubeApi.sent s
          ++ [KubeApi.watch_request o r w (KubeApi.last_resourceVersion s)]
        /\ KubeApi.stopped s' = false
        /\ KubeApi.in_flight s' = Some (length (KubeApi.sent s)))
    /\ (forall e, e = KubeApi.StopFn \/ e = KubeApi.AbortControllerFired ->
        let s1 := KubeApi.step o r s e in
        (forall stream, KubeApi.in_flight s = Some stream -> stream ∈ KubeApi.aborted s1)
        /\ KubeApi.in_flight s1 = None
        /\ KubeApi.sent s1 = KubeApi.sent s
        /\ forall es', KubeApi.sent (KubeApi.run o r s1 es') = KubeApi.sent s
                       /\ KubeApi.in_flight (KubeApi.run o r s1 es') = None).
Proof.
  intros o r w rv es s.
  pose proof (watch_inv_run o r w es _ (watch_inv_init o r w rv)) as [Hopt Hlive].
  fold s in Hopt, Hlive. split; [|split].
  - destruct (run_sent_grows o r es (KubeApi.watch o r w rv)) as [more Hmore].
    fold s in Hmore. exists more. exact Hmore.
  - intros Hstop s'. subst s'. simpl.
    destruct Hlive as [Hlive _]. destruct (Hlive Hstop) as [stream Hstream].
    rewrite Hstream, Hstop, Hopt. simpl. done.
  - intros e He s1.
    assert (E : s1 = KubeApi.step o r s KubeApi.StopFn) by (by destruct He as [->| ->]).
    rewrite E. simpl. split; [|split; [reflexivity|split; [reflexivity|]]].
    + intros stream ->. apply elem_of_app. right. apply list_elem_of_here.
    + intros es'.
      destruct (stopped_stays_silent o r es' (KubeApi.step o r s KubeApi.StopFn)
                  eq_refl eq_refl) as (H1 & H2 & _).
      split; [exact H1|exact H2].
Qed.

(** The watch of kube-api.test.ts in [kube-system] with a timeout of 60:
    a line arrives, the stream ends, the watch is requested again, and the
    stop handle aborts the second stream. *)
Lemma watch_reconnects_until_stopped_witness :
  let r := {| KubeApi.resolved_apiPrefix := "/api"; KubeApi.resolved_apiGroup := "";
              KubeApi.apiVersionPreferred := "v1" |} in
  let w := {| KubeApi.watch_namespace := Some "kube-system";
              KubeApi.watch_timeout := Some 60 |} in
  let s := KubeApi.run Fixture.podKubeApi r (KubeApi.watch Fixture.podKubeApi r w "")
             [KubeApi.StreamLine (KubeApi.EventLine "ADDED" "foobar")] in
  let request :=
    {| KubeApi.method := KubeApi.GET;
       KubeApi.url := "/api/v1/namespaces/kube-system/pods?watch=1&resourceVersion=&timeoutSeconds=60" |} in
  KubeApi.stopped s = false
  /\ KubeApi.sent (KubeApi.step Fixture.podKubeApi r s KubeApi.StreamEnd)
     = [request; request].
Proof.
  intros r w s request.
  destruct (watch_reconnects_until_stopped Fixture.podKubeApi r w ""
              [KubeApi.StreamLine (KubeApi.EventLine "ADDED" "foobar")])
    as (_ & Hend & _).
  split; [reflexivity|].
  destruct (Hend eq_refl) as (Hsent & _). fold s in Hsent. rewrite Hsent.
  vm_compute. reflexivity.
Defined.

Example watch_stopped_after_reconnect :
  let r := {| KubeApi.resolved_apiPrefix := "/api"; KubeApi.resolved_apiGroup := "";
              KubeApi.apiVersionPreferred := "v1" |} in
  let w := {| KubeApi.watch_namespace := Some "kube-system";
              KubeApi.watch_timeout := Some 60 |} in
  let s := KubeApi.run Fixture.podKubeApi r (KubeApi.watch Fixture.podKubeApi r w "")
             [KubeApi.StreamLine (KubeApi.EventLine "ADDED" "foobar");
              KubeApi.StreamEnd; KubeApi.StopFn; KubeApi.StreamEnd] in
  length (KubeApi.sent s) = 2 /\ KubeApi.aborted s = [1] /\ KubeApi.in_flight s = None.
Proof. vm_compute. repeat split. Qed.

(* ===================================================================== *)
(** ** More on the iterator utilities *)
(* ===================================================================== *)

Section IterMore.
Context {St : Type}.

Lemma string_app_assoc (a b c : string) : (a +:+ b) +:+ c = a +:+ (b +:+ c).
Proof.
  induction a as [|x a IH]; [reflexivity|].
  rewrite !app_cons_string. by rewrite IH.
Qed.

Lemma reduce_join (connector acc : string) (rest : list string) :
  (iter.reduce rest (iter.pure2 (fun acc cur => acc +:+ connector +:+ cur)) acc tt).1
  = String.concat connector (acc :: rest).
Proof.
  revert acc. induction rest as [|x rest IH]; intros acc; [reflexivity|].
  cbn [iter.reduce iter.pure2]. rewrite IH.
  change (String.concat connector (acc :: x :: rest))
    with (acc +:+ connector +:+ String.concat connector (x :: rest)).
  destruct rest as [|y rest]; [reflexivity|].
  change (String.concat connector ((acc +:+ connector +:+ x) :: y :: rest))
    with ((acc +:+ connector +:+ x) +:+ connector +:+ String.concat connector (y :: rest)).
  change (String.concat connector (x :: y :: rest))
    with (x +:+ connector +:+ String.concat connector (y :: rest)).
  by rewrite !string_app_assoc.
Qed.

End IterMore.

(** X1. [find] over two sources, one after the other, is [find] over the
    first and, only when that finds nothing, [find] over the second,
    started in the state the first walk left: behind a match no element
    is looked at.  With a callback without effects it returns the first
    element the callback accepts, and nothing exactly when it accepts
    none. *)
Theorem find_stops_at_first_match :
  forall (St T : Type) (src post : list T) (match_ : iter.callback T value) (st : St),
    iter.find (src ++ post) match_ st
    = (match iter.find src match_ st with
       | (Some found, st') => (Some found, st')
       | (None, st') => iter.find post match_ st'
       end)
    /\ (forall (f : T -> value) (x : T),
        (iter.find src (iter.pure f) tt).1 = Some x <->
        exists before behind,
          src = before ++ x :: behind
          /\ Forall (fun y => truthy (f y) = false) before
          /\ truthy (f x) = true)
    /\ (forall f : T -> value,
        (iter.find src (iter.pure f) tt).1 = None <->
        Forall (fun y => truthy (f y) = false) src).
Proof.
  intros St T src post match_ st. split; [|split].
  - revert st. induction src as [|y src IH]; intros st; simpl.
    + by destruct (iter.find post match_ st) as [[?|] ?].
    + destruct (match_ y st) as [res st1]. destruct (truthy res); [reflexivity|].
      apply IH.
  - intros f x. induction src as [|y src IH]; simpl.
    + split; [discriminate|]. intros (before & behind & H & _).
      by destruct before.
    + unfold iter.pure at 1. destruct (truthy (f y)) eqn:E; simpl.
      * split.
        -- intros [= <-]. exists [], src. by repeat split.
        -- intros (before & behind & Hsrc & Hbefore & Hx).
           destruct before as [|z before]; simpl in Hsrc.
           ++ by injection Hsrc as -> _.
           ++ injection Hsrc as -> _. apply Forall_cons in Hbefore as [Hz _]. congruence.
      * rewrite IH. split.
        -- intros (before & behind & -> & Hbefore & Hx).
           exists (y :: before), behind. split; [reflexivity|].
           split; [by apply Forall_cons|exact Hx].
        -- intros (before & behind & Hsrc & Hbefore & Hx).
           destruct before as [|z before]; simpl in Hsrc.
           ++ injection Hsrc as -> _. congruence.
           ++ injection Hsrc as -> ->. apply Forall_cons in Hbefore as [_ Hbefore].
              by exists before, behind.
  - intros f. induction src as [|y src IH]; simpl.
    + split; [by constructor|reflexivity].
    + unfold iter.pure at 1. destruct (truthy (f y)) eqn:E; simpl.
      * split; [discriminate|]. intros H. apply Forall_cons in H as [H _]. congruence.
      * rewrite IH. split; [intros H; apply Forall_cons; by split|]. intros H.
        by apply Forall_cons in H as [_ H].
Qed.

(** X2. [every] over two sources, one after the other, is [every] over
    the first and, only when that holds, [every] over the second: behind
    a rejected element the callback is not run.  With a callback without
    effects it holds exactly when the callback accepts every element,
    and so it holds of an empty source. *)
Theorem every_stops_at_first_failure :
  forall (St T : Type) (src post : list T) (fn : iter.callback T value) (st : St),
    iter.every (src ++ post) fn st
    = (match iter.every src fn st with
       | (false, st') => (false, st')
       | (true, st') => iter.every post fn st'
       end)
    /\ (forall f : T -> value,
        (iter.every src (iter.pure f) tt).1 = true <->
        Forall (fun y => truthy (f y) = true) src).
Proof.
  intros St T src post fn st. split.
  - revert st. induction src as [|y src IH]; intros st; simpl.
    + by destruct (iter.every post fn st) as [[|] ?].
    + destruct (fn y st) as [res st1]. destruct (truthy res); simpl; [apply IH|reflexivity].
  - intros f. induction src as [|y src IH]; simpl.
    + split; [by constructor|reflexivity].
    + unfold iter.pure at 1. destruct (truthy (f y)) eqn:E; simpl.
      * rewrite IH. split; [intros H; apply Forall_cons; by split|]. intros H.
        by apply Forall_cons in H as [_ H].
      * split; [discriminate|]. intros H. apply Forall_cons in H as [H _]. congruence.
Qed.

(** X3. [join] puts the connector between the strings and nowhere else:
    it is the concatenation with separator of the standard library, with
    "," as the separator when none is given.  Of an empty source it is
    the empty string, of a single string that string. *)
Theorem join_is_concat :
  forall (src : list string) (connector : option string),
    iter.join src connector = String.concat (default "," connector) src.
Proof.
  intros [|first rest] connector; [reflexivity|].
  unfold iter.join. apply reduce_join.
Qed.



(** X5. [filterMapStrict] drops the results that are [null] or
    [undefined] and keeps every other one, also [false], [0] and the
    empty string; [filterMap] yields what is left of its results once
    the falsy ones are taken out.  Both run the callback the same way. *)
Theorem filterMap_of_filterMapStrict :
  forall (St T : Type) (src : list T) (fn : iter.callback T value) (st : St),
    iter.filterMapStrict src fn st
    = (List.filter (fun v => negb (nullish v)) (iter.map src fn st).1,
       (iter.map src fn st).2)
    /\ iter.filterMap src fn st
       = (List.filter truthy (iter.filterMapStrict src fn st).1,
          (iter.filterMapStrict src fn st).2).
Proof.
  intros St T src fn st.
  assert (E : iter.filterMapStrict src fn st
              = (List.filter (fun v => negb (nullish v)) (iter.map src fn st).1,
                 (iter.map src fn st).2)).
  { revert st. induction src as [|x src IH]; intros st; simpl; [reflexivity|].
    destruct (fn x st) as [res st1]. rewrite IH.
    destruct (iter.map src fn st1) as [out st2]. simpl.
    by destruct (nullish res). }
  split; [exact E|]. rewrite E, filterMap_as_map. simpl. f_equal. clear E.
  generalize (iter.map src fn st).1 as vs.
  induction vs as [|v vs IH]; simpl; [reflexivity|].
  destruct v as [| |[|]|n| |s|r]; simpl; rewrite ?IH; reflexivity.
Qed.

(** X6. [filterFlatMap] never runs its callback on a falsy element of
    the source: dropping those elements first changes neither what is
    yielded nor the state the callback leaves.  Everything it yields is
    truthy. *)
Theorem filterFlatMap_skips_falsy :
  forall (St : Type) (src : list value)
         (fn : iter.callback value (option (list value))) (st : St),
    iter.filterFlatMap src fn st = iter.filterFlatMap (List.filter truthy src) fn st
    /\ Forall (fun v => truthy v = true) (iter.filterFlatMap src fn st).1.
Proof.
  intros St src fn st. split.
  - revert st. induction src as [|x src IH]; intros st; simpl; [reflexivity|].
    destruct (truthy x) eqn:E; simpl; [|apply IH]. rewrite E. simpl.
    destruct (fn x st) as [[mapping|] st1]; [|apply IH]. by rewrite IH.
  - revert st. induction src as [|x src IH]; intros st; simpl; [constructor|].
    destruct (truthy x); simpl; [|apply IH].
    destruct (fn x st) as [[mapping|] st1]; [|apply IH].
    specialize (IH st1). destruct (iter.filterFlatMap src fn st1) as [out st2].
    simpl in *. apply Forall_app. split; [|exact IH].
    apply Forall_forall. intros v Hv. apply list_elem_of_In in Hv.
    by apply filter_In in Hv as [_ Hv].
Qed.

(* ===================================================================== *)
(** ** More on insertion-ordered maps *)
(* ===================================================================== *)

Section ESMapMore.
Context {V : Type}.
Implicit Types (m : ESMap.t V) (k : string) (v : V).

Lemma ESMap_has_false_get m k : ESMap.has m k = false <-> ESMap.get m k = None.
Proof. unfold ESMap.has. destruct (ESMap.get m k); split; done. Qed.

Lemma ESMap_set_fresh m k v : ESMap.has m k = false -> ESMap.set m k v = m ++ [(k, v)].
Proof.
  rewrite ESMap_has_false_get. induction m as [|[k' v'] m IH]; simpl; [done|].
  destruct (String.eqb k' k); [discriminate|]. intros H. by rewrite IH.
Qed.

Lemma ESMap_delete_fresh m k : ESMap.has m k = false -> ESMap.delete m k = (false, m).
Proof.
  rewrite ESMap_has_false_get. induction m as [|[k' v'] m IH]; simpl; [done|].
  destruct (String.eqb k' k); [discriminate|]. intros H. by rewrite IH.
Qed.

Lemma ESMap_delete_found m k : ESMap.has m k = true -> (ESMap.delete m k).1 = true.
Proof.
  unfold ESMap.has. induction m as [|[k' v'] m IH]; simpl; [discriminate|].
  destruct (String.eqb k' k); [done|]. intros H. specialize (IH H).
  by destruct (ESMap.delete m k).
Qed.

(** Taking out what was just put in under a new key gives the map back. *)
Lemma ESMap_delete_set_fresh m k v :
  ESMap.has m k = false -> ESMap.delete (ESMap.set m k v) k = (true, m).
Proof.
  rewrite ESMap_has_false_get. induction m as [|[k' v'] m IH]; simpl.
  - by rewrite String.eqb_refl.
  - destruct (String.eqb k' k) eqn:E; [discriminate|]. intros H.
    simpl. rewrite E. by rewrite IH.
Qed.

Lemma ESMap_get_delete_ne m k k' :
  k' <> k -> ESMap.get (ESMap.delete m k).2 k' = ESMap.get m k'.
Proof.
  intros Hne. induction m as [|[k0 v0] m IH]; simpl; [done|].
  destruct (String.eqb_spec k0 k) as [->|Hk0]; simpl.
  - destruct (String.eqb_spec k k'); [congruence|done].
  - destruct (ESMap.delete m k) as [found rest]. simpl in *. by rewrite IH.
Qed.

Lemma ESMap_get_delete_eq m k : ESMap.wf m -> ESMap.get (ESMap.delete m k).2 k = None.
Proof.
  unfold ESMap.wf. induction m as [|[k0 v0] m IH]; simpl; [done|].
  intros Hnd. apply NoDup_cons in Hnd as [Hk0 Hnd].
  destruct (String.eqb_spec k0 k) as [->|Hne]; simpl.
  - by apply ESMap_get_None.
  - specialize (IH Hnd). destruct (ESMap.delete m k) as [found rest]. simpl in *.
    destruct (String.eqb_spec k0 k); [congruence|exact IH].
Qed.

(** [set] leaves the entries under other keys where they are. *)
Lemma ESMap_lookup_set_ne m k v (j : nat) k' v' :
  k' <> k -> m !! j = Some (k', v') -> ESMap.set m k v !! j = Some (k', v').
Proof.
  intros Hne. revert j. induction m as [|[k0 v0] m IH]; intros j; simpl; [done|].
  destruct j as [|j]; simpl.
  - intros [= -> ->]. destruct (String.eqb_spec k' k); [congruence|done].
  - intros H. destruct (String.eqb k0 k); simpl; [exact H|by apply IH].
Qed.

Lemma ESMap_get_lookup m k v : ESMap.get m k = Some v -> exists j, m !! j = Some (k, v).
Proof.
  induction m as [|[k0 v0] m IH]; simpl; [discriminate|].
  destruct (String.eqb_spec k0 k) as [->|Hne].
  - intros [= ->]. by exists 0.
  - intros H. destruct (IH H) as [j Hj]. by exists (S j).
Qed.
End ESMapMore.

(* ===================================================================== *)
(** ** More on the API registry *)
(* ===================================================================== *)

Section RegistryMore.
Import ApiManager.

Lemma registerApi_fresh (a : KubeApi) (m : State) :
  apiBase a <> "" -> ESMap.has (apis m) (apiBase a) = false ->
  apis (registerApi (inr a) None m) = apis m ++ [(apiBase a, a)].
Proof.
  intros Hne Hfresh. rewrite registerApi_apis.
  apply String.eqb_neq in Hne. rewrite Hne, Hfresh. by apply ESMap_set_fresh.
Qed.

Lemma getApi_same_apis (imports : Imports) (x : string + (KubeApi -> value))
    (m m' : State) :
  apis m' = apis m -> getApi imports x m' = getApi imports x m.
Proof. intros E. unfold getApi. by rewrite E. Qed.

Lemma unregister_entry_none (entries : list (string * KubeApi)) (a : KubeApi) :
  Forall (fun e => same_api e.2 a = false) entries -> unregister_entry entries a = None.
Proof.
  induction entries as [|[key b] entries IH]; intros H; simpl; [done|].
  apply Forall_cons in H as [Hb H]. simpl in Hb. rewrite Hb. by apply IH.
Qed.

Lemma unregister_entry_last (entries : list (string * KubeApi)) (a : KubeApi)
    (key : string) :
  Forall (fun e => same_api e.2 a = false) entries ->
  unregister_entry (entries ++ [(key, a)]) a = Some key.
Proof.
  induction entries as [|[key' b] entries IH]; intros H; simpl.
  - unfold same_api. by rewrite Nat.eqb_refl.
  - apply Forall_cons in H as [Hb H]. simpl in Hb. rewrite Hb. by apply IH.
Qed.

(** A property of the store map that each step of the walk of
    [registerApi] keeps holds when the walk is over. *)
Lemma forEach_rebind_inv (a : KubeApi) (P : ESMap.t KubeObjectStore -> Prop)
    (fuel i : nat) (s : ESMap.t KubeObjectStore) :
  (forall store key s, P s -> P (rebind_store a store key s)) ->
  P s -> P (forEach_from fuel i (rebind_store a) s).
Proof.
  intros Hstep. revert i s. induction fuel as [|fuel IH]; intros i s Hs; simpl; [done|].
  destruct (s !! i) as [[key store]|]; [|done]. by apply IH, Hstep.
Qed.

Lemma rebind_store_bound (a : KubeApi) (store : KubeObjectStore) (key : string)
    (s : ESMap.t KubeObjectStore) :
  bound_to a s -> bound_to a (rebind_store a store key s).
Proof.
  intros Hs. unfold rebind_store. destruct (same_api (api store) a) eqn:E; [|done].
  exists store. split; [apply ESMap_get_set_eq|exact E].
Qed.

Lemma forEach_rebind_reaches (a : KubeApi) (fuel i j : nat)
    (s : ESMap.t KubeObjectStore) (key : string) (store : KubeObjectStore) :
  s !! j = Some (key, store) -> key <> apiBase a -> same_api (api store) a = true ->
  i <= j -> j < i + fuel ->
  bound_to a (forEach_from fuel i (rebind_store a) s).
Proof.
  intros Hj Hkey Hstore. revert i s Hj.
  induction fuel as [|fuel IH]; intros i s Hj Hij Hfuel; [lia|]. simpl.
  destruct (decide (i = j)) as [->|Hne].
  - rewrite Hj. apply forEach_rebind_inv; [apply rebind_store_bound|].
    unfold rebind_store. rewrite Hstore. exists store.
    split; [apply ESMap_get_set_eq|exact Hstore].
  - destruct (s !! i) as [[key' store']|] eqn:Ei.
    + apply IH; [|lia|lia]. unfold rebind_store.
      destruct (same_api (api store') a); [|exact Hj].
      by apply ESMap_lookup_set_ne.
    + apply lookup_ge_None in Ei. apply lookup_lt_Some in Hj. lia.
Qed.

Lemma forEach_rebind_none (a : KubeApi) (fuel i : nat) (s : ESMap.t KubeObjectStore) :
  Forall (fun e => same_api (api e.2) a = false) s ->
  forEach_from fuel i (rebind_store a) s = s.
Proof.
  intros Hs. revert i. induction fuel as [|fuel IH]; intros i; simpl; [done|].
  destruct (s !! i) as [[key store]|] eqn:Ei; [|done].
  assert (Hstore : same_api (api store) a = false).
  { rewrite Forall_forall in Hs. apply (Hs (key, store)).
    apply list_elem_of_lookup. by exists i. }
  unfold rebind_store at 2. rewrite Hstore. apply IH.
Qed.
End RegistryMore.

(** X7. A client registered under a new, non-empty [apiBase] is found by
    [getApi] under that path, and under every unregistered path that
    parses to it; the clients registered before are found as before. *)
Theorem registerApi_then_getApi :
  forall (imports : ApiManager.Imports) (m : ApiManager.State) (a : ApiManager.KubeApi),
    ApiManager.apiBase a <> "" ->
    ESMap.has (ApiManager.apis m) (ApiManager.apiBase a) = false ->
    let m' := ApiManager.registerApi (inr a) None m in
    ApiManager.getApi imports (inl (ApiManager.apiBase a)) m' = Some a
    /\ (forall path,
        ESMap.get (ApiManager.apis m') path = None ->
        ApiManager.parseKubeApi_apiBase imports path = ApiManager.apiBase a ->
        ApiManager.getApi imports (inl path) m' = Some a)
    /\ (forall path b,
        ESMap.get (ApiManager.apis m) path = Some b ->
        ApiManager.getApi imports (inl path) m' = Some b).
Proof.
  intros imports m a Hne Hfresh m'.
  assert (E : ApiManager.apis m'
              = ESMap.set (ApiManager.apis m) (ApiManager.apiBase a) a).
  { subst m'. rewrite registerApi_apis. apply String.eqb_neq in Hne.
    by rewrite Hne, Hfresh. }
  unfold ApiManager.getApi. rewrite E. split; [|split].
  - by rewrite ESMap_get_set_eq.
  - intros path Hnone Hparse. rewrite Hnone, Hparse.
    apply ESMap_get_set_eq.
  - intros path b Hb. rewrite ESMap_get_set_ne, Hb; [done|].
    intros ->. apply ESMap_has_false_get in Hfresh. congruence.
Qed.

Lemma registerApi_then_getApi_witness :
  ApiManager.getApi Fixture.imports (inl "/api/v1/nodes")
    (ApiManager.registerApi (inr Fixture.nodeApi) None
       (ApiManager.registerApi (inr (Fixture.podApi 0)) None ApiManager.empty))
  = Some Fixture.nodeApi.
Proof.
  destruct (registerApi_then_getApi Fixture.imports
              (ApiManager.registerApi (inr (Fixture.podApi 0)) None ApiManager.empty)
              Fixture.nodeApi ltac:(discriminate) eq_refl) as [H _].
  exact H.
Defined.

(** X8. [unregisterApi] with a key takes that key out of the api map and
    leaves every other key, and the stores, as they were; with a key
    that is not registered it changes nothing. *)
Theorem unregisterApi_by_key :
  forall (m : ApiManager.State) (key : string),
    let m' := ApiManager.unregisterApi (inl key) m in
    ApiManager.stores m' = ApiManager.stores m
    /\ (forall key', key' <> key ->
        ESMap.get (ApiManager.apis m') key' = ESMap.get (ApiManager.apis m) key')
    /\ (ESMap.wf (ApiManager.apis m) -> ESMap.get (ApiManager.apis m') key = None)
    /\ (ESMap.has (ApiManager.apis m) key = false -> m' = m).
Proof.
  intros m key m'. subst m'. simpl. split; [reflexivity|]. split; [|split].
  - intros key' Hne. by apply ESMap_get_delete_ne.
  - apply ESMap_get_delete_eq.
  - intros Hfresh. rewrite (ESMap_delete_fresh _ _ Hfresh). by destruct m.
Qed.

Lemma unregisterApi_by_key_witness :
  let m := ApiManager.registerApi (inr (Fixture.podApi 0)) None ApiManager.empty in
  ESMap.get (ApiManager.apis (ApiManager.unregisterApi (inl "/api/v1/pods") m))
            "/api/v1/pods" = None
  /\ ApiManager.unregisterApi (inl "/api/v1/nodes") m = m.
Proof.
  intros m.
  destruct (unregisterApi_by_key m "/api/v1/pods") as (_ & _ & Hgone & _).
  destruct (unregisterApi_by_key m "/api/v1/nodes") as (_ & _ & _ & Hsame).
  split.
  - apply Hgone. apply NoDup_singleton.
  - apply Hsame. reflexivity.
Defined.

(** X9. Registering a client that is not in the registry, under a new
    and non-empty [apiBase], and unregistering it again, by the client
    or by its key, gives back the api map as it was.  Unregistering a
    client that is not registered changes nothing. *)
Theorem registerApi_unregisterApi :
  forall (m : ApiManager.State) (a : ApiManager.KubeApi),
    Forall (fun e => ApiManager.same_api e.2 a = false) (ApiManager.apis m) ->
    ApiManager.unregisterApi (inr a) m = m
    /\ (ApiManager.apiBase a <> "" ->
        ESMap.has (ApiManager.apis m) (ApiManager.apiBase a) = false ->
        let m' := ApiManager.registerApi (inr a) None m in
        ApiManager.apis (ApiManager.unregisterApi (inr a) m') = ApiManager.apis m
        /\ ApiManager.apis (ApiManager.unregisterApi (inl (ApiManager.apiBase a)) m')
           = ApiManager.apis m).
Proof.
  intros m a Hnew. split.
  - unfold ApiManager.unregisterApi, ESMap.entries.
    by rewrite (unregister_entry_none _ _ Hnew).
  - intros Hne Hfresh m'.
    assert (E : ApiManager.apis m'
                = ESMap.set (ApiManager.apis m) (ApiManager.apiBase a) a).
    { subst m'. rewrite registerApi_apis. apply String.eqb_neq in Hne.
      by rewrite Hne, Hfresh. }
    assert (Hdel : ESMap.delete (ApiManager.apis m') (ApiManager.apiBase a)
                   = (true, ApiManager.apis m))
      by (rewrite E; by apply ESMap_delete_set_fresh).
    split.
    + unfold ApiManager.unregisterApi, ESMap.entries.
      rewrite E at 1. rewrite (ESMap_set_fresh _ _ _ Hfresh).
      rewrite (unregister_entry_last _ _ _ Hnew). simpl. by rewrite Hdel.
    + simpl. by rewrite Hdel.
Qed.

Lemma registerApi_unregisterApi_witness :
  let m := ApiManager.registerApi (inr (Fixture.podApi 0)) None ApiManager.empty in
  ApiManager.apis
    (ApiManager.unregisterApi (inr Fixture.nodeApi)
       (ApiManager.registerApi (inr Fixture.nodeApi) None m))
  = ApiManager.apis m.
Proof.
  intros m.
  assert (Hnew : Forall (fun e => ApiManager.same_api e.2 Fixture.nodeApi = false)
                        (ApiManager.apis m)).
  { apply Forall_cons. split; [reflexivity|apply Forall_nil_2]. }
  destruct (registerApi_unregisterApi m Fixture.nodeApi Hnew) as [_ Hround].
  destruct (Hround ltac:(discriminate) eq_refl) as [H _]. exact H.
Defined.

Section StoreFacts.
Import ApiManager.
Variable store : KubeObjectStore.

Lemma registerStore_fold_apis (l : list KubeApi) (m : State) :
  apis (fold_left (registerStore_step store) l m) = apis m.
Proof.
  revert m. induction l as [|a l IH]; intros m; simpl; [done|].
  rewrite IH. unfold registerStore_step. by destruct (truthy (VString (apiBase a))).
Qed.

Lemma registerStore_fold_keeps (l : list KubeApi) (m : State) (key : string) :
  ESMap.get (stores m) key = Some store ->
  ESMap.get (stores (fold_left (registerStore_step store) l m)) key = Some store.
Proof.
  revert m. induction l as [|a l IH]; intros m Hm; simpl; [done|].
  apply IH. unfold registerStore_step.
  destruct (truthy (VString (apiBase a))); [|done]. simpl.
  destruct (decide (key = apiBase a)) as [->|Hne].
  - apply ESMap_get_set_eq.
  - by rewrite ESMap_get_set_ne.
Qed.

Lemma registerStore_fold_binds (l : list KubeApi) (m : State) (a : KubeApi) :
  a ∈ l -> apiBase a <> "" ->
  ESMap.get (stores (fold_left (registerStore_step store) l m)) (apiBase a) = Some store.
Proof.
  intros Hin Hne. revert m. induction l as [|b l IH]; intros m; [by apply elem_of_nil in Hin|].
  simpl. apply elem_of_cons in Hin as [<-|Hin]; [|by apply IH].
  apply registerStore_fold_keeps. unfold registerStore_step. simpl.
  apply String.eqb_neq in Hne. rewrite Hne. simpl. apply ESMap_get_set_eq.
Qed.

Lemma registerStore_fold_other (l : list KubeApi) (m : State) (key : string) :
  (forall a, a ∈ l -> apiBase a <> key) ->
  ESMap.get (stores (fold_left (registerStore_step store) l m)) key = ESMap.get (stores m) key.
Proof.
  revert m. induction l as [|b l IH]; intros m Hkey; simpl; [done|].
  rewrite IH by (intros a Ha; apply Hkey; by apply list_elem_of_further).
  unfold registerStore_step. destruct (truthy (VString (apiBase b))); [|done]. simpl.
  apply ESMap_get_set_ne. intros ->.
  apply (Hkey b); [apply list_elem_of_here|reflexivity].
Qed.

Lemma registerStore_unfold (apis_ : option (list (option KubeApi))) (m : State) :
  registerStore store apis_ m
  = fold_left (registerStore_step store) (omap (fun a => a) (default [Some (api store)] apis_)) m.
Proof. by destruct apis_. Qed.
End StoreFacts.

(** X10. After [registerStore(store, apis)] the store is found by
    [getStore] for every client of the list (for the store's own client
    when no list is given) whose [apiBase] is not empty.  The clients
    are not registered by it: the api map is unchanged, so a path at
    which no client is registered still resolves to no store.  The stores
    under other keys stay. *)
Theorem registerStore_then_getStore :
  forall (imports : ApiManager.Imports) (store : ApiManager.KubeObjectStore)
         (apis_ : option (list (option ApiManager.KubeApi))) (m : ApiManager.State),
    let clients := default [Some (ApiManager.api store)] apis_ in
    let m' := ApiManager.registerStore store apis_ m in
    ApiManager.apis m' = ApiManager.apis m
    /\ (forall a, Some a ∈ clients -> ApiManager.apiBase a <> "" ->
        ApiManager.getStore imports (Some (inr a)) m' = Some store)
    /\ (forall key, (forall a, Some a ∈ clients -> ApiManager.apiBase a <> key) ->
        ESMap.get (ApiManager.stores m') key = ESMap.get (ApiManager.stores m) key)
    /\ (forall path, ApiManager.getApi imports (inl path) m = None ->
        ApiManager.getStore imports (Some (inl path)) m' = None).
Proof.
  intros imports store apis_ m clients m'.
  assert (Hin : forall a, Some a ∈ clients <-> a ∈ omap (fun a => a) clients).
  { intros a. rewrite list_elem_of_omap. split.
    - intros H. by exists (Some a).
    - intros (x & Hx & ->). exact Hx. }
  assert (Hapis : ApiManager.apis m' = ApiManager.apis m).
  { subst m'. rewrite registerStore_unfold. apply registerStore_fold_apis. }
  split; [exact Hapis|]. split; [|split].
  - intros a Ha Hne. unfold ApiManager.getStore. simpl.
    apply String.eqb_neq in Hne as Hne'. rewrite Hne'. simpl.
    subst m'. rewrite registerStore_unfold.
    apply registerStore_fold_binds; [by apply Hin|exact Hne].
  - intros key Hkey. subst m'. rewrite registerStore_unfold.
    apply registerStore_fold_other. intros a Ha. apply Hkey. by apply Hin.
  - intros path Hnone. unfold ApiManager.getStore, ApiManager.resolveApi.
    destruct (negb (truthy (VString path))); [reflexivity|].
    by rewrite (getApi_same_apis imports _ _ _ Hapis), Hnone.
Qed.

Lemma registerStore_then_getStore_witness :
  let store := {| ApiManager.store_ref := 1; ApiManager.api := Fixture.podApi 0 |} in
  ApiManager.getStore Fixture.imports (Some (inr (Fixture.podApi 0)))
    (ApiManager.registerStore store None ApiManager.empty) = Some store
  /\ ApiManager.getStore Fixture.imports (Some (inl "/api/v1/pods"))
       (ApiManager.registerStore store None ApiManager.empty) = None.
Proof.
  intros store.
  destruct (registerStore_then_getStore Fixture.imports store None ApiManager.empty)
    as (_ & Hclient & _ & Hpath).
  split.
  - apply Hclient; [apply list_elem_of_here|discriminate].
  - apply Hpath. reflexivity.
Defined.

(** X11. When a client is registered under a new, non-empty [apiBase] and
    some store of the registry belongs to that very client, the store map
    afterwards holds a store of that client under the new [apiBase]; the
    stores under every other key stay where they are, also the entry the
    store was found under.  When no store belongs to the client the
    store map is unchanged. *)
Theorem registerApi_rebinds_store :
  forall (m : ApiManager.State) (a : ApiManager.KubeApi),
    ApiManager.apiBase a <> "" ->
    ESMap.has (ApiManager.apis m) (ApiManager.apiBase a) = false ->
    let m' := ApiManager.registerApi (inr a) None m in
    (forall key store,
        ESMap.get (ApiManager.stores m) key = Some store ->
        ApiManager.same_api (ApiManager.api store) a = true ->
        ApiManager.bound_to a (ApiManager.stores m'))
    /\ (forall key, key <> ApiManager.apiBase a ->
        ESMap.get (ApiManager.stores m') key = ESMap.get (ApiManager.stores m) key)
    /\ (Forall (fun e => ApiManager.same_api (ApiManager.api e.2) a = false)
               (ApiManager.stores m) ->
        ApiManager.stores m' = ApiManager.stores m).
Proof.
  intros m a Hne Hfresh m'.
  assert (E : ApiManager.stores m'
              = ApiManager.forEach_from (2 + ESMap.size (ApiManager.stores m)) 0
                  (ApiManager.rebind_store a) (ApiManager.stores m)).
  { subst m'. unfold ApiManager.registerApi. simpl.
    apply String.eqb_neq in Hne. by rewrite Hne, Hfresh. }
  rewrite E. split; [|split].
  - intros key store Hget Hstore.
    destruct (decide (key = ApiManager.apiBase a)) as [->|Hkey].
    + apply forEach_rebind_inv; [apply rebind_store_bound|]. by exists store.
    + destruct (ESMap_get_lookup _ _ _ Hget) as [j Hj].
      apply (forEach_rebind_reaches a _ 0 j _ key store Hj Hkey Hstore); [lia|].
      apply lookup_lt_Some in Hj. unfold ESMap.size. lia.
  - intros key Hkey.
    apply (forEach_rebind_inv a
             (fun s => ESMap.get s key = ESMap.get (ApiManager.stores m) key));
      [|reflexivity].
    intros store key' s Hs. unfold ApiManager.rebind_store.
    destruct (ApiManager.same_api (ApiManager.api store) a); [|exact Hs].
    by rewrite ESMap_get_set_ne.
  - intros Hnone. by apply forEach_rebind_none.
Qed.

(** A store registered for a client before the client's [apiBase] was
    settled, as the classes of the application do. *)
Lemma registerApi_rebinds_store_witness :
  let early := {| ApiManager.ref := 5; ApiManager.apiBase := "/apis/extensions/v1beta1/ingresses";
                  ApiManager.kind := "Ingress";
                  ApiManager.apiVersionWithGroup := "extensions/v1beta1" |} in
  let late := {| ApiManager.ref := 5; ApiManager.apiBase := "/apis/networking.k8s.io/v1/ingresses";
                 ApiManager.kind := "Ingress";
                 ApiManager.apiVersionWithGroup := "networking.k8s.io/v1" |} in
  let store := {| ApiManager.store_ref := 1; ApiManager.api := early |} in
  let m := ApiManager.registerStore store None ApiManager.empty in
  ApiManager.bound_to late (ApiManager.stores (ApiManager.registerApi (inr late) None m))
  /\ ESMap.get (ApiManager.stores (ApiManager.registerApi (inr late) None m))
               "/apis/extensions/v1beta1/ingresses" = Some store.
Proof.
  intros early late store m.
  destruct (registerApi_rebinds_store m late ltac:(discriminate) eq_refl)
    as (Hbound & Hother & _).
  split.
  - apply (Hbound "/apis/extensions/v1beta1/ingresses" store); reflexivity.
  - rewrite Hother; [reflexivity|discriminate].
Defined.

(** X12. [getApiByKind] returns a registered client of exactly that kind
    and version, and nothing only when no registered client is of that
    kind and version.  A reference to a kind and version for which it
    finds a client resolves, by [lookupApiLink], to the url of that
    client, for the namespace of the reference or else of the parent
    object, with no link being built. *)
Theorem lookupApiLink_of_registered_kind :
  forall (imports : ApiManager.Imports) (m : ApiManager.State) (k v : string),
    (forall a, ApiManager.getApiByKind k v m = Some a ->
        a ∈ ESMap.values (ApiManager.apis m)
        /\ ApiManager.kind a = k /\ ApiManager.apiVersionWithGroup a = v)
    /\ (ApiManager.getApiByKind k v m = None <->
        Forall (fun a => ~ (ApiManager.kind a = k
                            /\ ApiManager.apiVersionWithGroup a = v))
               (ESMap.values (ApiManager.apis m)))
    /\ (forall a (r : ApiManager.ObjectReference)
               (parentObject : option ApiManager.KubeObject),
        k <> "" ->
        ApiManager.ref_kind r = Some k ->
        default "v1" (ApiManager.ref_apiVersion r) = v ->
        ApiManager.getApiByKind k v m = Some a ->
        ApiManager.lookupApiLink_calls imports r parentObject m
        = (ApiManager.getUrl imports a
             (match ApiManager.ref_namespace r with
              | Some ns => Some ns
              | None => parentObject ≫= ApiManager.getNs
              end)
             (ApiManager.ref_name r),
           [ApiManager.CallGetApiCallback; ApiManager.CallGetUrl a])).
Proof.
  intros imports m k v. split; [|split].
  - intros a Ha. apply find_pure_Some in Ha as [Hin Ht]. split; [exact Hin|].
    simpl in Ht. apply andb_true_iff in Ht as [H1 H2].
    by rewrite String.eqb_eq in H1, H2.
  - unfold ApiManager.getApiByKind. split.
    + intros Hnone. apply Forall_forall. intros a Hin [Hk Hv].
      revert Hnone Hin. generalize (ESMap.values (ApiManager.apis m)) as l.
      induction l as [|b l IH]; simpl; intros Hnone Hin; [by apply elem_of_nil in Hin|].
      unfold iter.pure at 1 in Hnone. simpl in Hnone.
      destruct (String.eqb (ApiManager.kind b) k
                && String.eqb (ApiManager.apiVersionWithGroup b) v) eqn:E;
        simpl in Hnone; [discriminate|].
      apply elem_of_cons in Hin as [->|Hin]; [|by apply IH].
      rewrite Hk, Hv, !String.eqb_refl in E. discriminate.
    + intros Hall. apply find_pure_None. intros a Hin.
      rewrite Forall_forall in Hall. specialize (Hall a Hin). simpl.
      apply not_true_is_false. intros Ht. apply Hall.
      apply andb_true_iff in Ht as [H1 H2]. by rewrite String.eqb_eq in H1, H2.
  - intros a r parentObject Hk Hkind Hv Ha.
    unfold ApiManager.lookupApiLink_calls. rewrite Hkind.
    change (truthy_str (Some k)) with (negb (String.eqb k "")).
    change (default "" (Some k)) with k.
    apply String.eqb_neq in Hk. rewrite Hk, Hv. simpl negb.
    change (ApiManager.getApi imports
              (inr (fun a0 => VBool (String.eqb (ApiManager.kind a0) k
                                     && String.eqb (ApiManager.apiVersionWithGroup a0) v))) m)
      with (ApiManager.getApiByKind k v m).
    by rewrite Ha.
Qed.

Lemma lookupApiLink_of_registered_kind_witness :
  ApiManager.lookupApiLink_calls Fixture.imports
    {| ApiManager.ref_kind := Some "Node"; ApiManager.ref_apiVersion := None;
       ApiManager.ref_name := "worker-1"; ApiManager.ref_namespace := None |}
    None
    (ApiManager.registerApi (inr Fixture.nodeApi) None ApiManager.empty)
  = ("/api/v1/nodes/worker-1",
     [ApiManager.CallGetApiCallback; ApiManager.CallGetUrl Fixture.nodeApi]).
Proof.
  destruct (lookupApiLink_of_registered_kind Fixture.imports
              (ApiManager.registerApi (inr Fixture.nodeApi) None ApiManager.empty)
              "Node" "v1") as (_ & _ & Hlink).
  rewrite (Hlink Fixture.nodeApi); [reflexivity|discriminate|reflexivity..].
Defined.

(* ===================================================================== *)
(** ** More on the kubeconfig sync manager *)
(* ===================================================================== *)

Section SyncMore.
Import KubeconfigSync.
Variable deps : Dependencies.

Lemma source_unfold (st : State) :
  source st = (iter.filter (all_entities st) unseen ∅).1.
Proof.
  unfold source, all_entities, iter.collect. rewrite flatMap_pure.
  by destruct (iter.filter _ unseen ∅).
Qed.

Lemma stopOldSync_head (k : string) (v : Source) (rest : ESMap.t Source) (st : State) :
  sources st = (k, v) :: rest ->
  sources (stopOldSync k st) = rest
  /\ watchesStarted (stopOldSync k st) = watchesStarted st
  /\ syncListDisposer (stopOldSync k st) = syncListDisposer st.
Proof.
  intros Hst. unfold stopOldSync. rewrite Hst. simpl. by rewrite String.eqb_refl.
Qed.

Lemma fold_stopOldSync_all (m : ESMap.t Source) (st : State) :
  sources st = m ->
  let st' := fold_left (fun st p => stopOldSync p st) (ESMap.keys m) st in
  sources st' = [] /\ watchesStarted st' = watchesStarted st
  /\ syncListDisposer st' = syncListDisposer st.
Proof.
  revert st. induction m as [|[k v] m IH]; intros st Hst; simpl; [done|].
  destruct (stopOldSync_head k v m st Hst) as (Hs & Hw & Hd).
  destruct (IH _ Hs) as (H1 & H2 & H3). simpl in *. by rewrite H1, H2, H3, Hw, Hd.
Qed.

Lemma startNewSync_keeps (p q : string) (s : Source) (st : State) :
  ESMap.get (sources st) q = Some s ->
  ESMap.get (sources (startNewSync deps p st)) q = Some s.
Proof.
  intros Hq. unfold startNewSync. destruct (ESMap.has (sources st) p) eqn:E; simpl; [done|].
  rewrite ESMap_get_set_ne; [done|]. intros ->.
  apply ESMap_has_false_get in E. congruence.
Qed.

Lemma fold_startNewSync_keeps (paths : list string) (q : string) (s : Source)
    (st : State) :
  ESMap.get (sources st) q = Some s ->
  ESMap.get (sources (fold_left (fun st p => startNewSync deps p st) paths st)) q
  = Some s.
Proof.
  revert st. induction paths as [|p paths IH]; intros st Hq; simpl; [done|].
  by apply IH, startNewSync_keeps.
Qed.

Lemma ESMap_has_get_Some (m : ESMap.t Source) (k : string) :
  ESMap.has m k = true <-> exists s, ESMap.get m k = Some s.
Proof.
  unfold ESMap.has. destruct (ESMap.get m k) as [s|].
  - split; [by exists s|done].
  - split; [done|]. by intros [s Hs].
Qed.

Lemma fold_startNewSync_has (paths : list string) (p : string) (st : State) :
  p ∈ paths ->
  ESMap.has (sources (fold_left (fun st p => startNewSync deps p st) paths st)) p = true.
Proof.
  revert st. induction paths as [|q paths IH]; intros st Hin; [by apply elem_of_nil in Hin|].
  simpl. apply elem_of_cons in Hin as [->|Hin]; [|by apply IH].
  pose proof (startNewSync_has deps q st) as Hq.
  apply ESMap_has_get_Some in Hq as [s Hs]. apply ESMap_has_get_Some. exists s.
  by apply fold_startNewSync_keeps.
Qed.

Lemma fold_startNewSync_watched (paths : list string) (st : State) :
  (forall p, p ∈ paths -> ESMap.has (sources st) p = true) ->
  let st' := fold_left (fun st p => startNewSync deps p st) paths st in
  sources st' = sources st /\ watchesStarted st' = watchesStarted st.
Proof.
  revert st. induction paths as [|q paths IH]; intros st Hall; simpl; [done|].
  assert (Hq : ESMap.has (sources st) q = true) by apply Hall, list_elem_of_here.
  assert (E : sources (startNewSync deps q st) = sources st
              /\ watchesStarted (startNewSync deps q st) = watchesStarted st).
  { unfold startNewSync. by rewrite Hq. }
  destruct E as [Es Ew].
  destruct (IH (startNewSync deps q st)) as [H1 H2].
  - intros p Hp. rewrite Es. apply Hall. by apply list_elem_of_further.
  - simpl in *. by rewrite H1, H2, Es, Ew.
Qed.
End SyncMore.

(** X13. [stopSync] takes every source out: the source map is empty
    afterwards and the merged view with it.  It starts no watch. *)
Theorem stopSync_stops_everything :
  forall st : KubeconfigSync.State,
    KubeconfigSync.sources (KubeconfigSync.stopSync st) = []
    /\ KubeconfigSync.source (KubeconfigSync.stopSync st) = []
    /\ KubeconfigSync.watchesStarted (KubeconfigSync.stopSync st)
       = KubeconfigSync.watchesStarted st.
Proof.
  intros st. unfold KubeconfigSync.stopSync.
  destruct (fold_stopOldSync_all
              (KubeconfigSync.sources st)
              (KubeconfigSync.logger_info "stopping requested syncs"
                 KubeconfigSync.NoMeta st) eq_refl) as (Hs & Hw & _).
  simpl in *. split; [exact Hs|]. split; [|exact Hw].
  rewrite source_unfold. unfold KubeconfigSync.all_entities. by rewrite Hs.
Qed.

(** X14. [stopOldSync] of a path that has no source changes nothing but
    the log, where it leaves the debug line "no syncing file/folder to
    stop".  Starting the sync of such a path and stopping it again gives
    back the source map, and so the merged view, as they were. *)
Theorem stopOldSync_undoes_startNewSync :
  forall (deps : KubeconfigSync.Dependencies) (st : KubeconfigSync.State)
         (filePath : string),
    ESMap.has (KubeconfigSync.sources st) filePath = false ->
    KubeconfigSync.stopOldSync filePath st
    = KubeconfigSync.logger_debug "no syncing file/folder to stop"
        (KubeconfigSync.MetaFilePath filePath) st
    /\ KubeconfigSync.sources
         (KubeconfigSync.stopOldSync filePath
            (KubeconfigSync.startNewSync deps filePath st))
       = KubeconfigSync.sources st
    /\ KubeconfigSync.source
         (KubeconfigSync.stopOldSync filePath
            (KubeconfigSync.startNewSync deps filePath st))
       = KubeconfigSync.source st.
Proof.
  intros deps st filePath Hfresh.
  assert (E : KubeconfigSync.sources
                (KubeconfigSync.stopOldSync filePath
                   (KubeconfigSync.startNewSync deps filePath st))
              = KubeconfigSync.sources st).
  { unfold KubeconfigSync.startNewSync. rewrite Hfresh.
    unfold KubeconfigSync.stopOldSync. simpl.
    by rewrite (ESMap_delete_set_fresh _ _ _ Hfresh). }
  split; [|split; [exact E|]].
  - unfold KubeconfigSync.stopOldSync. by rewrite (ESMap_delete_fresh _ _ Hfresh).
  - rewrite !source_unfold. unfold KubeconfigSync.all_entities. by rewrite E.
Qed.

Lemma stopOldSync_undoes_startNewSync_witness :
  let deps := {| KubeconfigSync.directoryForKubeConfigs := "/home/user/.kube";
                 KubeconfigSync.kubeconfigSyncs := [];
                 KubeconfigSync.watchKubeconfigFileChanges := fun _ => ([], 7) |} in
  KubeconfigSync.sources
    (KubeconfigSync.stopOldSync "/tmp/config"
       (KubeconfigSync.startNewSync deps "/tmp/config" KubeconfigSync.initial))
  = [].
Proof.
  intros deps.
  destruct (stopOldSync_undoes_startNewSync deps KubeconfigSync.initial "/tmp/config"
              eq_refl) as (_ & H & _).
  exact H.
Defined.

(** X15. After [startSync] the default directory and every configured
    path has a source, and a path that had a source before still has the
    same one.  A second [startSync] adds no source and starts no watch. *)
Theorem startSync_covers_configuration :
  forall (deps : KubeconfigSync.Dependencies) (st : KubeconfigSync.State),
    let st' := KubeconfigSync.startSync deps st in
    (forall p, p ∈ KubeconfigSync.directoryForKubeConfigs deps
                   :: KubeconfigSync.kubeconfigSyncs deps ->
        ESMap.has (KubeconfigSync.sources st') p = true)
    /\ (forall p s, ESMap.get (KubeconfigSync.sources st) p = Some s ->
        ESMap.get (KubeconfigSync.sources st') p = Some s)
    /\ KubeconfigSync.sources (KubeconfigSync.startSync deps st')
       = KubeconfigSync.sources st'
    /\ KubeconfigSync.watchesStarted (KubeconfigSync.startSync deps st')
       = KubeconfigSync.watchesStarted st'.
Proof.
  intros deps st st'.
  assert (Hfold : forall st0,
    KubeconfigSync.sources (KubeconfigSync.startSync deps st0)
    = KubeconfigSync.sources
        (fold_left (fun st p => KubeconfigSync.startNewSync deps p st)
           (KubeconfigSync.directoryForKubeConfigs deps
            :: KubeconfigSync.kubeconfigSyncs deps)
           (KubeconfigSync.logger_info "starting requested syncs"
              KubeconfigSync.NoMeta st0))
    /\ KubeconfigSync.watchesStarted (KubeconfigSync.startSync deps st0)
       = KubeconfigSync.watchesStarted
           (fold_left (fun st p => KubeconfigSync.startNewSync deps p st)
              (KubeconfigSync.directoryForKubeConfigs deps
               :: KubeconfigSync.kubeconfigSyncs deps)
              (KubeconfigSync.logger_info "starting requested syncs"
                 KubeconfigSync.NoMeta st0))) by (intros st0; split; reflexivity).
  assert (Hcover : forall p, p ∈ KubeconfigSync.directoryForKubeConfigs deps
                                 :: KubeconfigSync.kubeconfigSyncs deps ->
                             ESMap.has (KubeconfigSync.sources st') p = true).
  { intros p Hp. subst st'. destruct (Hfold st) as [-> _].
    by apply fold_startNewSync_has. }
  split; [exact Hcover|]. split; [|].
  - intros p s Hs. subst st'. destruct (Hfold st) as [-> _].
    by apply fold_startNewSync_keeps.
  - destruct (Hfold st') as [-> ->].
    apply (fold_startNewSync_watched deps _
             (KubeconfigSync.logger_info "starting requested syncs"
                KubeconfigSync.NoMeta st')).
    exact Hcover.
Qed.

Section SourceMore.
Import KubeconfigSync.

Lemma filter_unseen_sublist (l : list CatalogEntity) (seen : gset string) :
  (iter.filter l unseen seen).1 `sublist_of` l.
Proof.
  revert seen. induction l as [|e l IH]; intros seen; cbn [iter.filter]; [done|].
  unfold unseen at 1. destruct (decide (getId e ∈ seen)).
  - specialize (IH seen). destruct (iter.filter l unseen seen) as [out st2].
    simpl in *. by apply sublist_cons.
  - specialize (IH ({[getId e]} ∪ seen)).
    destruct (iter.filter l unseen ({[getId e]} ∪ seen)) as [out st2].
    simpl in *. by apply sublist_skip.
Qed.

(** Every id of the input is either seen already or the id of an entity
    let through. *)
Lemma filter_unseen_covers (l : list CatalogEntity) (seen : gset string)
    (e : CatalogEntity) :
  e ∈ l ->
  getId e ∈ seen
  \/ exists e', e' ∈ (iter.filter l unseen seen).1 /\ getId e' = getId e.
Proof.
  revert seen. induction l as [|x l IH]; intros seen Hin; [by apply elem_of_nil in Hin|].
  cbn [iter.filter]. unfold unseen at 1. destruct (decide (getId x ∈ seen)) as [Hx|Hx].
  - specialize (IH seen). destruct (iter.filter l unseen seen) as [out st2]. simpl in *.
    apply elem_of_cons in Hin as [->|Hin]; [by left|by apply IH].
  - specialize (IH ({[getId x]} ∪ seen)).
    destruct (iter.filter l unseen ({[getId x]} ∪ seen)) as [out st2]. simpl in *.
    apply elem_of_cons in Hin as [->|Hin].
    + right. exists x. split; [apply list_elem_of_here|done].
    + destruct (IH Hin) as [Hseen|(e' & He' & Hid)].
      * apply elem_of_union in Hseen as [Hseen|Hseen]; [|by left].
        apply elem_of_singleton in Hseen. right. exists x.
        split; [apply list_elem_of_here|done].
      * right. exists e'. split; [by apply list_elem_of_further|done].
Qed.

Lemma filter_unseen_all (l : list CatalogEntity) (seen : gset string) :
  NoDup (List.map getId l) -> (forall e, e ∈ l -> getId e ∉ seen) ->
  (iter.filter l unseen seen).1 = l.
Proof.
  revert seen. induction l as [|x l IH]; intros seen Hnd Hfresh; [done|].
  simpl in Hnd. apply NoDup_cons in Hnd as [Hx Hnd].
  cbn [iter.filter]. unfold unseen at 1.
  destruct (decide (getId x ∈ seen)) as [Hin|_].
  - exfalso. by apply (Hfresh x), Hin; apply list_elem_of_here.
  - specialize (IH ({[getId x]} ∪ seen) Hnd).
    destruct (iter.filter l unseen ({[getId x]} ∪ seen)) as [out st2]. simpl in *.
    f_equal. apply IH. intros e He. apply not_elem_of_union. split.
    + intros Heq. apply elem_of_singleton in Heq. apply Hx. rewrite <- Heq.
      apply list_elem_of_fmap. by exists e.
    + apply Hfresh. by apply list_elem_of_further.
Qed.
End SourceMore.

(** X16. The merged view loses no cluster and invents none: it is a
    sublist of the entities of all sources, every id found in a source is
    the id of an entity of the view, and when the ids of the sources'
    entities are all different the view is those entities unchanged. *)
Theorem source_is_complete :
  forall st : KubeconfigSync.State,
    KubeconfigSync.source st `sublist_of` KubeconfigSync.all_entities st
    /\ (forall e, e ∈ KubeconfigSync.all_entities st ->
        exists e', e' ∈ KubeconfigSync.source st
                   /\ KubeconfigSync.getId e' = KubeconfigSync.getId e)
    /\ (NoDup (List.map KubeconfigSync.getId (KubeconfigSync.all_entities st)) ->
        KubeconfigSync.source st = KubeconfigSync.all_entities st).
Proof.
  intros st. rewrite source_unfold. split; [apply filter_unseen_sublist|]. split.
  - intros e He. destruct (filter_unseen_covers _ ∅ e He) as [Hseen|H]; [|exact H].
    by apply elem_of_empty in Hseen.
  - intros Hnd. apply filter_unseen_all; [exact Hnd|]. intros e _. apply not_elem_of_empty.
Qed.

Section ReachableFacts.
Import KubeconfigSync.
Variable deps : Dependencies.

Lemma startNewSync_started (p : string) (st : State) :
  started_by_watcher deps st -> started_by_watcher deps (startNewSync deps p st).
Proof.
  intros [Hwf Hinv]. split; [by apply startNewSync_wf|].
  unfold startNewSync. destruct (ESMap.has (sources st) p) eqn:E; simpl; [exact Hinv|].
  intros q s. destruct (decide (q = p)) as [->|Hne].
  - rewrite ESMap_get_set_eq. intros [= <-]. split; [done|].
    apply elem_of_app. right. apply list_elem_of_here.
  - rewrite ESMap_get_set_ne by done. intros Hq. destruct (Hinv q s Hq) as [H1 H2].
    split; [exact H1|]. apply elem_of_app. by left.
Qed.

Lemma stopOldSync_started (p : string) (st : State) :
  started_by_watcher deps st -> started_by_watcher deps (stopOldSync p st).
Proof.
  intros [Hwf Hinv]. split; [by apply stopOldSync_wf|].
  unfold stopOldSync.
  pose proof (ESMap_get_delete_eq (sources st) p Hwf) as Heq.
  pose proof (fun q => ESMap_get_delete_ne (sources st) p q) as Hother.
  destruct (ESMap.delete (sources st) p) as [[|] rest]; simpl in *; [|exact Hinv].
  intros q s Hq. destruct (decide (q = p)) as [->|Hne]; [congruence|].
  apply Hinv. by rewrite <- Hother.
Qed.

Lemma fold_startNewSync_started (paths : list string) (st : State) :
  started_by_watcher deps st ->
  started_by_watcher deps (fold_left (fun st p => startNewSync deps p st) paths st).
Proof.
  revert st. induction paths as [|p paths IH]; intros st H; simpl; [done|].
  by apply IH, startNewSync_started.
Qed.

Lemma fold_stopOldSync_started (paths : list string) (st : State) :
  started_by_watcher deps st ->
  started_by_watcher deps (fold_left (fun st p => stopOldSync p st) paths st).
Proof.
  revert st. induction paths as [|p paths IH]; intros st H; simpl; [done|].
  by apply IH, stopOldSync_started.
Qed.
End ReachableFacts.

(** X17. Whatever the manager has been through, every source it holds is
    the one the file watcher returned for its path, that path was handed
    to the watcher, and no path has two sources. *)
Theorem reachable_sources_come_from_watcher :
  forall (deps : KubeconfigSync.Dependencies) (st : KubeconfigSync.State),
    KubeconfigSync.Reachable deps st ->
    forall p s,
      ESMap.get (KubeconfigSync.sources st) p = Some s ->
      s = KubeconfigSync.watchKubeconfigFileChanges deps p
      /\ p ∈ KubeconfigSync.watchesStarted st
      /\ ESMap.count (KubeconfigSync.sources st) p = 1.
Proof.
  intros deps st Hreach.
  assert (Hinv : KubeconfigSync.started_by_watcher deps st).
  { induction Hreach as [|st _ IH|st _ IH|st [q|q|q] _ IH].
    - split; [apply NoDup_nil_2|]. intros p s H. discriminate H.
    - destruct (fold_startNewSync_started deps
                  (KubeconfigSync.directoryForKubeConfigs deps
                   :: KubeconfigSync.kubeconfigSyncs deps)
                  (KubeconfigSync.logger_info "starting requested syncs"
                     KubeconfigSync.NoMeta st) IH) as [Hwf H].
      split; [exact Hwf|exact H].
    - unfold KubeconfigSync.stopSync. by apply fold_stopOldSync_started.
    - by apply startNewSync_started.
    - by apply stopOldSync_started.
    - exact IH. }
  intros p s Hs. destruct Hinv as [Hwf Hinv]. destruct (Hinv p s Hs) as [H1 H2].
  split; [exact H1|]. split; [exact H2|].
  pose proof (ESMap_count_le_1 _ p Hwf).
  assert (Hhas : ESMap.has (KubeconfigSync.sources st) p = true)
    by (unfold ESMap.has; by rewrite Hs).
  pose proof (ESMap_count_ge_1 _ p Hhas). lia.
Qed.

Lemma reachable_sources_come_from_watcher_witness :
  let deps := {| KubeconfigSync.directoryForKubeConfigs := "/home/user/.kube";
                 KubeconfigSync.kubeconfigSyncs := ["/tmp/config"];
                 KubeconfigSync.watchKubeconfigFileChanges := fun _ => ([], 7) |} in
  ESMap.count (KubeconfigSync.sources (KubeconfigSync.startSync deps KubeconfigSync.initial))
              "/tmp/config" = 1.
Proof.
  intros deps.
  destruct (reachable_sources_come_from_watcher deps
              (KubeconfigSync.startSync deps KubeconfigSync.initial)
              (KubeconfigSync.Reachable_startSync deps _
                 (KubeconfigSync.Reachable_initial deps))
              "/tmp/config" ([], 7) eq_refl) as (_ & _ & H).
  exact H.
Defined.

(* ===================================================================== *)
(** ** Properties of the static file route *)
(* ===================================================================== *)

Section StaticFileFacts.
Import StaticFileRoute.
Variable deps : Dependencies.

(** The loop ends by its own condition, not for want of fuel. *)
Lemma loop_fuel_enough (fuel extra retryCount : nat) (filePath : string) :
  6 <= fuel + retryCount ->
  loop deps (fuel + extra) retryCount filePath = loop deps fuel retryCount filePath.
Proof.
  revert retryCount filePath. induction fuel as [|fuel IH]; intros retryCount filePath H.
  - simpl. destruct extra; simpl; [reflexivity|].
    assert (E : (retryCount <? 5) = false) by (apply Nat.ltb_ge; lia). by rewrite E.
  - simpl. destruct (retryCount <? 5); simpl; [|reflexivity].
    destruct (startsWith _ _); simpl; [|reflexivity].
    destruct (readFileBuffer deps _); [reflexivity|].
    destruct (5 <? retryCount); [reflexivity|].
    rewrite IH by lia. reflexivity.
Qed.

Lemma loop_safe (fuel retryCount : nat) (filePath : string) :
  Forall (safe_read deps filePath) (loop deps fuel retryCount filePath).2
  /\ length (loop deps fuel retryCount filePath).2 <= 5 - retryCount.
Proof.
  revert retryCount filePath. induction fuel as [|fuel IH]; intros retryCount filePath.
  - simpl. split; [constructor|lia].
  - simpl. destruct (retryCount <? 5) eqn:Hlt; simpl; [|split; [constructor|lia]].
    apply Nat.ltb_lt in Hlt.
    destruct (startsWith _ _) eqn:Hguard; simpl; [|split; [constructor|lia]].
    assert (Hread : safe_read deps filePath
                      (ReadFile (joinPaths deps (staticFilesDirectory deps) filePath))).
    { eexists. split; [reflexivity|]. split; [exact Hguard|by left]. }
    destruct (readFileBuffer deps _); simpl.
    + split; [|lia]. apply Forall_cons. split; [exact Hread|constructor].
    + assert (E : (5 <? retryCount) = false) by (apply Nat.ltb_ge; lia). rewrite E.
      specialize (IH (S retryCount) (publicPath +:+ "/" +:+ appName deps +:+ ".html")).
      destruct (loop deps fuel (S retryCount) _) as [result effects]. simpl in *.
      destruct IH as [IHsafe IHlen]. split; [|lia].
      apply Forall_cons. split; [exact Hread|].
      eapply Forall_impl; [exact IHsafe|]. intros e (asset & He & Hguard' & Hasset).
      exists asset. split; [exact He|]. split; [exact Hguard'|]. right.
      by destruct Hasset as [->| ->].
Qed.
End StaticFileFacts.

(** X18. Whatever is asked for, the handler only ever reads files whose
    absolute path begins with the static files directory, and of those
    only the file asked for and the fallback page; it reads five times at
    most, and it never logs an error (the branch that would is never
    taken). *)
Theorem static_handler_stays_in_directory :
  forall (deps : StaticFileRoute.Dependencies) (path : string),
    Forall (StaticFileRoute.safe_read deps path) (StaticFileRoute.handler deps path).2
    /\ length (StaticFileRoute.handler deps path).2 <= 5
    /\ (forall message,
        StaticFileRoute.LoggerError message ∉ (StaticFileRoute.handler deps path).2)
    /\ (forall extra,
        StaticFileRoute.loop deps (6 + extra) 0 path = StaticFileRoute.handler deps path).
Proof.
  intros deps path. destruct (loop_safe deps 6 0 path) as [Hsafe Hlen].
  fold (StaticFileRoute.handler deps path) in Hsafe, Hlen.
  split; [exact Hsafe|]. split; [lia|]. split.
  - intros message Hin. rewrite Forall_forall in Hsafe.
    destruct (Hsafe _ Hin) as (asset & He & _). discriminate He.
  - intros extra. apply loop_fuel_enough. lia.
Qed.

(** X19. A path that leaves the static files directory is answered with
    404 and nothing is read.  A file inside it that can be read is
    served with the content type of its extension, or that of [txt] when
    the table has none.  When it cannot be read, the fallback page is
    served in its place with the content type of the page; and when that
    cannot be read either, the answer is 404 after the page was tried
    four times. *)
Theorem static_handler_outcomes :
  forall (deps : StaticFileRoute.Dependencies) (path : string),
    let dir := StaticFileRoute.staticFilesDirectory deps in
    let inside asset := startsWith (StaticFileRoute.getAbsolutePath deps asset) dir in
    let asset := StaticFileRoute.joinPaths deps dir path in
    let page := StaticFileRoute.fallbackAsset deps in
    (inside asset = false ->
     StaticFileRoute.handler deps path = (StaticFileRoute.NotFound, []))
    /\ (forall buffer, inside asset = true ->
        StaticFileRoute.readFileBuffer deps asset = Some buffer ->
        StaticFileRoute.handler deps path
        = (StaticFileRoute.Served buffer (StaticFileRoute.contentTypeOf deps asset),
           [StaticFileRoute.ReadFile asset]))
    /\ (forall buffer, inside asset = true ->
        StaticFileRoute.readFileBuffer deps asset = None ->
        inside page = true ->
        StaticFileRoute.readFileBuffer deps page = Some buffer ->
        StaticFileRoute.handler deps path
        = (StaticFileRoute.Served buffer (StaticFileRoute.contentTypeOf deps page),
           [StaticFileRoute.ReadFile asset; StaticFileRoute.ReadFile page]))
    /\ (inside asset = true ->
        StaticFileRoute.readFileBuffer deps asset = None ->
        inside page = true ->
        StaticFileRoute.readFileBuffer deps page = None ->
        StaticFileRoute.handler deps path
        = (StaticFileRoute.NotFound,
           StaticFileRoute.ReadFile asset :: repeat (StaticFileRoute.ReadFile page) 4))
    /\ (inside asset = true ->
        StaticFileRoute.readFileBuffer deps asset = None ->
        inside page = false ->
        StaticFileRoute.handler deps path
        = (StaticFileRoute.NotFound, [StaticFileRoute.ReadFile asset])).
Proof.
  intros deps path dir inside asset page.
  unfold StaticFileRoute.handler. subst inside asset page dir.
  unfold StaticFileRoute.fallbackAsset.
  split; [|split; [|split; [|split]]].
  - intros Hout. simpl. by rewrite Hout.
  - intros buffer Hin Hread. simpl. by rewrite Hin, Hread.
  - intros buffer Hin Hread Hpage Hpread. simpl. by rewrite Hin, Hread, Hpage, Hpread.
  - intros Hin Hread Hpage Hpread. simpl. by rewrite Hin, Hread, Hpage, Hpread.
  - intros Hin Hread Hpage. simpl. by rewrite Hin, Hread, Hpage.
Qed.

Lemma static_handler_outcomes_witness :
  let deps :=
    {| StaticFileRoute.readFileBuffer := fun asset =>
         if String.eqb asset "/opt/lens/static/build//Lens.html" then Some "<html>" else None;
       StaticFileRoute.getAbsolutePath := fun asset =>
         if String.eqb asset "/opt/lens/static/../secret" then "/opt/lens/secret" else asset;
       StaticFileRoute.joinPaths := fun a b => a +:+ b;
       StaticFileRoute.staticFilesDirectory := "/opt/lens/static";
       StaticFileRoute.appName := "Lens";
       StaticFileRoute.extname := fun asset =>
         if endsWith asset ".html" then ".html" else "";
       StaticFileRoute.contentTypes := fun ext =>
         if String.eqb ext "html" then Some "text/html"
         else if String.eqb ext "txt" then Some "text/plain" else None |} in
  StaticFileRoute.handler deps "/../secret" = (StaticFileRoute.NotFound, [])
  /\ StaticFileRoute.handler deps "/missing.js"
     = (StaticFileRoute.Served "<html>" (Some "text/html"),
        [StaticFileRoute.ReadFile "/opt/lens/static/missing.js";
         StaticFileRoute.ReadFile "/opt/lens/static/build//Lens.html"]).
Proof.
  intros deps.
  destruct (static_handler_outcomes deps "/../secret") as (Hout & _).
  destruct (static_handler_outcomes deps "/missing.js") as (_ & _ & Hpage & _).
  split.
  - apply Hout. reflexivity.
  - rewrite (Hpage "<html>"); reflexivity.
Defined.

(* ===================================================================== *)
(** ** Properties of the cluster overview store and the Helm release request *)
(* ===================================================================== *)

(** X20. Once the store has reacted to the node count, [loadMetrics] asks
    for the metrics of an empty list of nodes only when the cluster has
    neither master nor worker nodes; the role is left alone when there
    are nodes of both kinds.  Without master nodes the worker nodes are
    asked for, whatever the role. *)
Theorem loadMetrics_picks_existing_nodes :
  forall (nodeStore : ClusterOverviewStore.NodeStore)
         (role : ClusterOverviewStore.MetricNodeRole),
    let role' := ClusterOverviewStore.onNodeCountChange nodeStore role in
    (ClusterOverviewStore.loadMetrics_nodeNames nodeStore role' = [] <->
     ClusterOverviewStore.masterNodes nodeStore = []
     /\ ClusterOverviewStore.workerNodes nodeStore = [])
    /\ (ClusterOverviewStore.masterNodes nodeStore <> [] ->
        ClusterOverviewStore.workerNodes nodeStore <> [] -> role' = role)
    /\ (ClusterOverviewStore.masterNodes nodeStore = [] ->
        ClusterOverviewStore.loadMetrics_nodeNames nodeStore role
        = List.map ClusterOverviewStore.getName
                   (ClusterOverviewStore.workerNodes nodeStore)).
Proof.
  intros [masters workers] role role'. subst role'.
  unfold ClusterOverviewStore.onNodeCountChange,
         ClusterOverviewStore.loadMetrics_nodeNames. simpl.
  destruct masters as [|m masters], workers as [|w workers], role; simpl;
    repeat split; try done; try (by intros [? ?]).
Qed.

(** X21. [requestDetailedHelmRelease] hands back a release only if the
    listing of the namespace holds one of exactly that name and
    namespace, and then the first such one with the details requested;
    it resolves to [undefined] exactly when the listing holds none, and
    it rejects when either request rejects. *)
Theorem requestDetailedHelmRelease_matches :
  forall (requestHelmReleases : string -> option (list DetailedHelmRelease.HelmReleaseDto))
         (requestHelmReleaseDetails :
            string -> string -> option DetailedHelmRelease.HelmReleaseDetails)
         (name_ namespace_ : string),
    let result :=
      DetailedHelmRelease.requestDetailedHelmRelease
        requestHelmReleases requestHelmReleaseDetails name_ namespace_ in
    let wanted rel :=
      DetailedHelmRelease.name rel = name_
      /\ DetailedHelmRelease.namespace rel = namespace_ in
    (result = None <->
     requestHelmReleases namespace_ = None
     \/ requestHelmReleaseDetails name_ namespace_ = None)
    /\ (forall release details,
        result = Some (Some (release, details)) <->
        requestHelmReleaseDetails name_ namespace_ = Some details
        /\ exists before behind,
             requestHelmReleases namespace_ = Some (before ++ release :: behind)
             /\ Forall (fun rel => ~ wanted rel) before /\ wanted release)
    /\ (result = Some None <->
        requestHelmReleaseDetails name_ namespace_ <> None
        /\ exists releases,
             requestHelmReleases namespace_ = Some releases
             /\ Forall (fun rel => ~ wanted rel) releases).
Proof.
  intros reqs dets name_ namespace_ result wanted. subst result.
  unfold DetailedHelmRelease.requestDetailedHelmRelease.
  set (test := fun rel : DetailedHelmRelease.HelmReleaseDto =>
                 String.eqb (DetailedHelmRelease.name rel) name_
                 && String.eqb (DetailedHelmRelease.namespace rel) namespace_).
  assert (Htest : forall rel, test rel = true <-> wanted rel).
  { intros rel. unfold test, wanted. by rewrite andb_true_iff, !String.eqb_eq. }
  assert (Hfind : forall releases release,
             List.find test releases = Some release <->
             exists before behind, releases = before ++ release :: behind
               /\ Forall (fun rel => ~ wanted rel) before /\ wanted release).
  { induction releases as [|x releases IH]; intros release; simpl.
    - split; [discriminate|]. intros (before & behind & H & _). by destruct before.
    - destruct (test x) eqn:Ex.
      + split.
        * intros [= <-]. exists [], releases. split; [done|]. split; [constructor|by apply Htest].
        * intros (before & behind & Heq & Hbefore & Hrel).
          destruct before as [|y before]; simpl in Heq; [by injection Heq as -> _|].
          injection Heq as -> _. apply Forall_cons in Hbefore as [Hy _].
          exfalso. by apply Hy, Htest.
      + rewrite IH. split.
        * intros (before & behind & -> & Hbefore & Hrel).
          exists (x :: before), behind. split; [done|]. split; [|done].
          apply Forall_cons. split; [|done]. intros Hx. apply Htest in Hx. congruence.
        * intros (before & behind & Heq & Hbefore & Hrel).
          destruct before as [|y before]; simpl in Heq.
          -- injection Heq as -> _. apply Htest in Hrel. congruence.
          -- injection Heq as -> ->. apply Forall_cons in Hbefore as [_ Hbefore].
             by exists before, behind. }
  assert (Hnone : forall releases,
             List.find test releases = None <-> Forall (fun rel => ~ wanted rel) releases).
  { induction releases as [|x releases IH]; simpl.
    - split; [constructor|done].
    - destruct (test x) eqn:Ex.
      + split; [discriminate|]. intros H. apply Forall_cons in H as [Hx _].
        exfalso. by apply Hx, Htest.
      + rewrite IH. split.
        * intros H. apply Forall_cons. split; [|done]. intros Hx. apply Htest in Hx. congruence.
        * intros H. by apply Forall_cons in H as [_ H]. }
  destruct (reqs namespace_) as [releases|], (dets name_ namespace_) as [details|];
    simpl.
  - destruct (List.find test releases) as [found|] eqn:Efind.
    + split; [split; [discriminate|by intros [?|?]]|]. split.
      * intros release d. split.
        -- intros [= <- <-]. split; [done|]. apply Hfind in Efind as (b & h & -> & ? & ?).
           by exists b, h.
        -- intros ([= <-] & before & behind & [= Heq] & Hbefore & Hrel).
           assert (Hf : List.find test releases = Some release).
           { apply Hfind. by exists before, behind. }
           congruence.
      * split; [discriminate|]. intros (_ & l & [= <-] & Hall).
        apply Hnone in Hall. congruence.
    + split; [split; [discriminate|by intros [?|?]]|]. split.
      * intros release d. split; [discriminate|].
        intros (_ & before & behind & [= Heq] & Hbefore & Hrel).
        assert (Hf : List.find test releases = Some release).
        { apply Hfind. by exists before, behind. }
        congruence.
      * split; [|done]. intros _. split; [done|]. exists releases. split; [done|].
        by apply Hnone.
  - split; [split; [by right|done]|]. split.
    + intros release d. split; [discriminate|]. by intros [? _].
    + split; [discriminate|]. by intros [? _].
  - split; [split; [by left|done]|]. split.
    + intros release d. split; [discriminate|]. by intros (_ & ? & ? & ? & _).
    + split; [discriminate|]. by intros (_ & ? & ? & _).
  - split; [split; [by left|done]|]. split.
    + intros release d. split; [discriminate|]. by intros [? _].
    + split; [discriminate|]. by intros [? _].
Qed.
